(** * beadmachine: a shallow embedding of [main.go]

    The development follows the Go source file top to bottom: machine
    integers and the [image/color], [image], [chromath] and [math] library
    types the program manipulates come first, then the [beadMachine] struct,
    [startBeadMachine], [process], [calculateBeadUsage] and
    [calculateBeadBoardsNeeded], and finally the properties proved about
    them. *)

From Stdlib Require Import ZArith Lia List Bool String.
From Stdlib Require Import Floats.SpecFloat.
From stdpp Require Import base option list list_numbers gmap strings fin_maps.

Local Open Scope Z_scope.

(** ** Machine integers *)

(** Go's [int] on the 64-bit targets the program is built for: arithmetic
    wraps around modulo [2^64] into the signed range. *)
Module GoInt.

Definition min_int : Z := - 2 ^ 63.
Definition max_int : Z := 2 ^ 63 - 1.

Definition wrap (z : Z) : Z := (z + 2 ^ 63) mod 2 ^ 64 - 2 ^ 63.

Definition in_range (z : Z) : Prop := min_int <= z <= max_int.

Definition add (a b : Z) : Z := wrap (a + b).
Definition sub (a b : Z) : Z := wrap (a - b).
Definition mul (a b : Z) : Z := wrap (a * b).

(** Unsigned 32-bit arithmetic, used by the colour accessors. *)
Definition u32 (z : Z) : Z := z mod 2 ^ 32.

(** The conversion [uint8(v)] of a [uint32] keeps the low eight bits. *)
Definition uint8 (z : Z) : Z := z mod 2 ^ 8.

End GoInt.

(** ** Package [image/color] *)

Module color.

(** The struct [color.RGBA]: alpha-premultiplied 8-bit channels. *)
Record RGBA : Type := mkRGBA { R : Z; G : Z; B : Z; A : Z }.

(** A value of the interface [color.Color] is one of the concrete colour
    structs of the package; the constructor is the dynamic type. *)
Inductive Color : Type :=
  | OfRGBA (c : RGBA)
  | OfRGBA64 (r g b a : Z)
  | OfNRGBA (r g b a : Z)
  | OfNRGBA64 (r g b a : Z)
  | OfAlpha (a : Z)
  | OfAlpha16 (a : Z)
  | OfGray (y : Z)
  | OfGray16 (y : Z).

(** [v |= v << 8] on a [uint32]. *)
Definition dup8 (v : Z) : Z := GoInt.u32 (Z.lor v (Z.shiftl v 8)).

(** The method [RGBA()] of each colour type: alpha-premultiplied channels
    in the range [0, 0xffff], computed in [uint32] as the library does. *)
Definition Color_RGBA (c : Color) : Z * Z * Z * Z :=
  match c with
  | OfRGBA c => (dup8 (R c), dup8 (G c), dup8 (B c), dup8 (A c))
  | OfRGBA64 r g b a => (r, g, b, a)
  | OfNRGBA r g b a =>
      let pre v := GoInt.u32 (dup8 v * a) / 255 in
      (pre r, pre g, pre b, dup8 a)
  | OfNRGBA64 r g b a =>
      let pre v := GoInt.u32 (v * a) / 65535 in
      (pre r, pre g, pre b, a)
  | OfAlpha a => (dup8 a, dup8 a, dup8 a, dup8 a)
  | OfAlpha16 a => (a, a, a, a)
  | OfGray y => (dup8 y, dup8 y, dup8 y, 65535)
  | OfGray16 y => (y, y, y, 65535)
  end.

Definition is_uint8 (v : Z) : Prop := 0 <= v < 256.
Definition is_uint16 (v : Z) : Prop := 0 <= v < 65536.

(** Channel values fit the field widths of the struct. *)
Definition wf (c : Color) : Prop :=
  match c with
  | OfRGBA c => is_uint8 (R c) /\ is_uint8 (G c) /\ is_uint8 (B c) /\ is_uint8 (A c)
  | OfRGBA64 r g b a | OfNRGBA64 r g b a =>
      is_uint16 r /\ is_uint16 g /\ is_uint16 b /\ is_uint16 a
  | OfNRGBA r g b a => is_uint8 r /\ is_uint8 g /\ is_uint8 b /\ is_uint8 a
  | OfAlpha a | OfGray a => is_uint8 a
  | OfAlpha16 a | OfGray16 a => is_uint16 a
  end.

#[global] Instance RGBA_eq_dec : EqDecision RGBA.
Proof. solve_decision. Defined.

#[global] Instance Color_eq_dec : EqDecision Color.
Proof. solve_decision. Defined.

(** Colours are map keys in the program ([map[color.Color]...]); Go compares
    interface keys by dynamic type and then field by field. *)
Definition to_code (c : Color) : nat * (Z * Z * Z * Z) :=
  match c with
  | OfRGBA c => (0%nat, (R c, G c, B c, A c))
  | OfRGBA64 r g b a => (1%nat, (r, g, b, a))
  | OfNRGBA r g b a => (2%nat, (r, g, b, a))
  | OfNRGBA64 r g b a => (3%nat, (r, g, b, a))
  | OfAlpha a => (4%nat, (0, 0, 0, a))
  | OfAlpha16 a => (5%nat, (0, 0, 0, a))
  | OfGray y => (6%nat, (y, 0, 0, 0))
  | OfGray16 y => (7%nat, (y, 0, 0, 0))
  end.

Definition of_code (p : nat * (Z * Z * Z * Z)) : Color :=
  let '(t, (r, g, b, a)) := p in
  match t with
  | 0%nat => OfRGBA (mkRGBA r g b a)
  | 1%nat => OfRGBA64 r g b a
  | 2%nat => OfNRGBA r g b a
  | 3%nat => OfNRGBA64 r g b a
  | 4%nat => OfAlpha a
  | 5%nat => OfAlpha16 a
  | 6%nat => OfGray r
  | _ => OfGray16 r
  end.

Lemma of_to_code c : of_code (to_code c) = c.
Proof. destruct c as [[] | | | | | | |]; reflexivity. Qed.

#[global] Instance Color_countable : Countable Color :=
  inj_countable' to_code of_code of_to_code.

End color.

(** ** Package [image] *)

Module image.

Record Point : Type := mkPoint { X : Z; Y : Z }.

Record Rectangle : Type := mkRectangle { Min : Point; Max : Point }.

Definition Dx (r : Rectangle) : Z := GoInt.sub (X (Max r)) (X (Min r)).
Definition Dy (r : Rectangle) : Z := GoInt.sub (Y (Max r)) (Y (Min r)).

(** [Point.In]: the rectangle is closed at [Min] and open at [Max]. *)
Definition In (x y : Z) (r : Rectangle) : bool :=
  (X (Min r) <=? x) && (x <? X (Max r)) && (Y (Min r) <=? y) && (y <? Y (Max r)).

(** The interface [image.Image]: bounds and a colour at every coordinate. *)
Record Image : Type := mkImage {
  Bounds : Rectangle;
  At : Z -> Z -> color.Color
}.

(** The struct [image.RGBA].  The pixel buffer is kept as a finite map from
    coordinates to the stored [color.RGBA]; a coordinate never written holds
    the zero colour, as in a freshly made byte slice. *)
Record RGBA : Type := mkRGBA {
  Pix : gmap (Z * Z) color.RGBA;
  Rect : Rectangle
}.

Definition zeroRGBA : color.RGBA := color.mkRGBA 0 0 0 0.

(** The library's overflow-checked product of three non-negative ints. *)
Definition mul3NonNeg (x y z : Z) : Z :=
  if (x <? 0) || (y <? 0) || (z <? 0) then -1
  else if 2 ^ 64 <=? x * y then -1
  else if 2 ^ 63 <=? x * y * z then -1
  else x * y * z.

(** [image.NewRGBA] panics ([None]) when the rectangle has a negative or
    huge dimension; otherwise every pixel is zero. *)
Definition NewRGBA (r : Rectangle) : option RGBA :=
  if mul3NonNeg 4 (Dx r) (Dy r) <? 0 then None
  else Some {| Pix := ∅; Rect := r |}.

(** The method [SetRGBA] ignores coordinates outside [Rect]. *)
Definition SetRGBA (p : RGBA) (x y : Z) (c : color.RGBA) : RGBA :=
  if In x y (Rect p) then {| Pix := <[(x, y) := c]> (Pix p); Rect := Rect p |}
  else p.

(** The method [RGBAAt] yields the zero colour outside [Rect]. *)
Definition RGBAAt (p : RGBA) (x y : Z) : color.RGBA :=
  if In x y (Rect p) then default zeroRGBA (Pix p !! (x, y)) else zeroRGBA.

End image.

(** ** Package [math] and the [float64] type *)

Module math.

(** IEEE 754 binary64, as specified by the standard library's [SpecFloat]. *)
Definition prec : Z := 53.
Definition emax : Z := 1024.

Definition float64 : Type := spec_float.

(** The conversion [float64(i)] of an [int]: round to nearest even. *)
Definition float64_of_int (i : Z) : float64 := binary_normalize prec emax i 0 false.

Definition div (x y : float64) : float64 := SFdiv prec emax x y.
Definition add (x y : float64) : float64 := SFadd prec emax x y.
Definition mul (x y : float64) : float64 := SFmul prec emax x y.

(** The constant [.5] (and [0.5]). *)
Definition half : float64 := S754_finite false 4503599627370496 (-53).

(** [math.Floor]: the greatest integer value not above [x]; zeros,
    infinities and NaN are returned unchanged. *)
Definition Floor (x : float64) : float64 :=
  match x with
  | S754_finite s m e =>
      if 0 <=? e then x
      else binary_normalize prec emax (Z.shiftr (cond_Zopp s (Zpos m)) (- e)) 0 s
  | _ => x
  end.

(** The conversion [int(f)]: the fraction is discarded.  A value that does
    not fit an [int] converts to the smallest [int], as on amd64. *)
Definition int_of_float64 (x : float64) : Z :=
  match x with
  | S754_zero _ => 0
  | S754_finite s m e =>
      let t := cond_Zopp s (if 0 <=? e then Z.shiftl (Zpos m) e
                            else Z.shiftr (Zpos m) (- e)) in
      if (GoInt.min_int <=? t) && (t <=? GoInt.max_int) then t else GoInt.min_int
  | _ => GoInt.min_int
  end.

End math.

(** ** Package [chromath]: the colour-space configuration *)

Module chromath.

Inductive IlluminantRef : Type :=
  | IlluminantRefA | IlluminantRefB | IlluminantRefC
  | IlluminantRefD50 | IlluminantRefD55 | IlluminantRefD65 | IlluminantRefD75
  | IlluminantRefE | IlluminantRefF2 | IlluminantRefF7 | IlluminantRefF11.

Inductive RGBSpace : Type :=
  | SpaceSRGB | SpaceAdobeRGB | SpaceAppleRGB | SpaceProPhotoRGB | SpaceWideGamutRGB.

Inductive Adaptation : Type :=
  | AdaptationBradford | AdaptationVonKries | AdaptationXYZScaling.

Inductive Scaler : Type :=
  | Scaler8bClamping | Scaler16bClamping | Scaler8b | Scaler16b.

Inductive Compander : Type :=
  | SRGBCompander | GammaCompander | LstarCompander.

Record Lab : Type := mkLab { L : math.float64; A : math.float64; B : math.float64 }.

(** What [NewLabTransformer] is given. *)
Record LabTransformer : Type := NewLabTransformer { refIlluminant : IlluminantRef }.

(** What [NewRGBTransformer] is given, in argument order. *)
Record RGBTransformer : Type := NewRGBTransformer {
  workingSpace : RGBSpace;
  adaptation : Adaptation;
  targetIlluminant : IlluminantRef;
  scaler : Scaler;
  outScale : math.float64;
  compander : option Compander
}.

End chromath.

(** ** Package [zap]: structured log entries *)

Module zap.

Inductive Level : Type := DebugLevel | InfoLevel | ErrorLevel.

(** A logger as the program configures it: entries at [InfoLevel] and
    [ErrorLevel] are always written, the level only decides about debug
    entries. *)
Record Logger : Type := mkLogger { level : Level }.

Inductive Field : Type :=
  | Int (key : string) (v : Z)
  | Float64 (key : string) (v : math.float64)
  | String (key : string) (v : string)
  | Duration (key : string) (d : Z)
  | Error (err : string).

End zap.

(** ** Package [cobra]: parsed command-line flags *)

Module cobra.

Inductive FlagValue : Type :=
  | VString (s : string)
  | VInt (i : Z)
  | VBool (b : bool)
  | VFloat64 (f : math.float64).

(** [cmd.Flags()] after parsing: flag name to value. *)
Abbreviation FlagSet := (gmap string FlagValue).

(** The getters return the zero value together with an error when the flag
    is missing or of another type; the program discards the error. *)
Definition GetString (fs : FlagSet) (name : string) : string :=
  match fs !! name with Some (VString s) => s | _ => "" end.
Definition GetInt (fs : FlagSet) (name : string) : Z :=
  match fs !! name with Some (VInt i) => i | _ => 0 end.
Definition GetBool (fs : FlagSet) (name : string) : bool :=
  match fs !! name with Some (VBool b) => b | _ => false end.
Definition GetFloat64 (fs : FlagSet) (name : string) : math.float64 :=
  match fs !! name with Some (VFloat64 f) => f | _ => S754_zero false end.

End cobra.

(** ** The [beadMachine] struct *)

(** [BeadConfig] configures a bead colour. *)
Record BeadConfig : Type := mkBeadConfig {
  cfgR : Z; cfgG : Z; cfgB : Z;
  GreyShade : bool;
  Translucent : bool;
  Flourescent : bool
}.

Record beadMachine : Type := mkBeadMachine {
  logger : zap.Logger;

  colorMatchCache : gmap color.Color string;
  rgbLabCache : gmap color.Color chromath.Lab;

  labTransformer : chromath.LabTransformer;
  rgbTransformer : chromath.RGBTransformer;
  beadFillPixel : color.RGBA;

  inputFileName : string;
  outputFileName : string;
  htmlFileName : string;
  paletteFileName : string;

  width : Z;
  height : Z;
  boardsWidth : Z;
  boardsHeight : Z;
  boardDimension : Z;

  beadStyle : bool;
  translucent : bool;
  flourescent : bool;

  noColorMatching : bool;
  greyScale : bool;
  blur : math.float64;
  sharpen : math.float64;
  gamma : math.float64;
  contrast : math.float64;
  brightness : math.float64
}.

(** [logger(cmd)]: debug level when verbose, info level otherwise. *)
Definition logger_of (fs : cobra.FlagSet) : zap.Logger :=
  zap.mkLogger (if cobra.GetBool fs "verbose" then zap.DebugLevel else zap.InfoLevel).

Definition float_one : math.float64 := S754_finite false 4503599627370496 (-52).

(** The struct literal built by [startBeadMachine]. *)
Definition newBeadMachine (fs : cobra.FlagSet) : beadMachine :=
  {| logger := logger_of fs;
     colorMatchCache := ∅;
     rgbLabCache := ∅;
     labTransformer := chromath.NewLabTransformer chromath.IlluminantRefD50;
     rgbTransformer :=
       chromath.NewRGBTransformer chromath.SpaceSRGB chromath.AdaptationBradford
         chromath.IlluminantRefD50 chromath.Scaler8bClamping float_one None;
     beadFillPixel := color.mkRGBA 225 225 225 255;
     inputFileName := cobra.GetString fs "input";
     outputFileName := cobra.GetString fs "output";
     paletteFileName := cobra.GetString fs "palette";
     htmlFileName := cobra.GetString fs "html";
     boardDimension := cobra.GetInt fs "boarddimension";
     width := cobra.GetInt fs "width";
     boardsWidth := cobra.GetInt fs "boardswidth";
     height := cobra.GetInt fs "height";
     boardsHeight := cobra.GetInt fs "boardsheight";
     beadStyle := cobra.GetBool fs "beadstyle";
     noColorMatching := cobra.GetBool fs "nocolormatching";
     greyScale := cobra.GetBool fs "grey";
     translucent := cobra.GetBool fs "translucent";
     flourescent := cobra.GetBool fs "flourescent";
     blur := cobra.GetFloat64 fs "blur";
     sharpen := cobra.GetFloat64 fs "sharpen";
     gamma := cobra.GetFloat64 fs "gamma";
     contrast := cobra.GetFloat64 fs "contrast";
     brightness := cobra.GetFloat64 fs "brightness" |}.

(** ** Effects of a run *)

(** What a run does to the outside world, in program order. *)
Inductive Event : Type :=
  | EvHelp
  | EvLog (lvl : zap.Level) (msg : string) (fields : list zap.Field)
  | EvReadImageFile (name : string)
  | EvProcessImage (palette : string)
  | EvCreate (name : string)
  | EvEncode (name : string) (img : image.RGBA)
  | EvClose (name : string)
  | EvBeadStatsDone.

(** How a function body ends: it falls off its end with a value, it executes
    a [return] statement early, or it panics. *)
Inductive Outcome (A : Type) : Type :=
  | Value (a : A)
  | Return
  | Panic.

Arguments Value {A} a.
Arguments Return {A}.
Arguments Panic {A}.

(** A computation: the events it performed and how it ended. *)
Definition M (A : Type) : Type := list Event * Outcome A.

Definition ret {A} (a : A) : M A := ([], Value a).

Definition bind {A B} (c : M A) (k : A -> M B) : M B :=
  match c with
  | (t, Value a) => let '(t', o) := k a in (t ++ t', o)
  | (t, Return) => (t, Return)
  | (t, Panic) => (t, Panic)
  end.

Definition emit (e : Event) : M unit := ([e], Value tt).
Definition exit {A} : M A := ([], Return).
Definition panic {A} : M A := ([], Panic).

Notation "'let*' x ':=' c 'in' k" := (bind c (fun x => k))
  (at level 10, x name, c at level 100, k at level 200).
Notation "c ;;; k" := (bind c (fun _ => k))
  (at level 100, k at level 200, right associativity).

Definition trace {A} (c : M A) : list Event := fst c.
Definition outcome {A} (c : M A) : Outcome A := snd c.

Definition logInfo (msg : string) (fields : list zap.Field) : M unit :=
  emit (EvLog zap.InfoLevel msg fields).
Definition logError (msg : string) (fields : list zap.Field) : M unit :=
  emit (EvLog zap.ErrorLevel msg fields).

(** ** Collaborators of [process] defined outside [main.go] *)

(** The functions [process] calls that live in other files of the program or
    in libraries.  An [error] is its message; [None] is [nil]. *)
Record World : Type := mkWorld {
  readImageFile : string -> image.Image + string;
  applyFilters : beadMachine -> image.Image -> image.Image;
  imaging_Resize : image.Image -> Z -> Z -> image.Image;
  processImage :
    beadMachine -> image.Rectangle -> image.Image -> image.RGBA -> string ->
    image.RGBA * option string;
  os_Create : string -> option string;
  time_Since : Z
}.

(** ** [calculateBeadBoardsNeeded] *)

Definition float_29 : math.float64 := math.float64_of_int 29.

(** calculateBeadBoardsNeeded calculates the needed bead boards based on the
    standard size of 29 beads for a dimension. *)
Definition calculateBeadBoardsNeeded (dimension : Z) : Z :=
  let neededFloat := math.div (math.float64_of_int dimension) float_29 in
  let neededFloat := math.Floor (math.add neededFloat math.half) in
  math.int_of_float64 neededFloat.

(** ** [process] *)

(** The colour written for a source pixel when matching is skipped:
    [A 255 = no transparency]. *)
Definition pixelRGBA (pixelColor : color.Color) : color.RGBA :=
  let '(r, g, b, _) := color.Color_RGBA pixelColor in
  color.mkRGBA (GoInt.uint8 r) (GoInt.uint8 g) (GoInt.uint8 b) 255.

(** The body of the two nested loops of the [noColorMatching] branch. *)
Definition copyPixel (inputImage : image.Image) (outputImage : image.RGBA)
    (x y : Z) : image.RGBA :=
  let pixelColor := image.At inputImage x y in
  image.SetRGBA outputImage x y (pixelRGBA pixelColor).

(** [for x := Min.X; x < Max.X; x++] for one row [y]. *)
Definition copyRow (imageBounds : image.Rectangle) (inputImage : image.Image)
    (outputImage : image.RGBA) (y : Z) : image.RGBA :=
  let lo := image.X (image.Min imageBounds) in
  let hi := image.X (image.Max imageBounds) in
  foldl (fun out x => copyPixel inputImage out x y) outputImage (seqZ lo (hi - lo)).

(** [for y := Min.Y; y < Max.Y; y++] around the row loop. *)
Definition copyPixels (imageBounds : image.Rectangle) (inputImage : image.Image)
    (outputImage : image.RGBA) : image.RGBA :=
  let lo := image.Y (image.Min imageBounds) in
  let hi := image.Y (image.Max imageBounds) in
  foldl (fun out y => copyRow imageBounds inputImage out y) outputImage
    (seqZ lo (hi - lo)).

(** The rectangle the output image is allocated with: in bead style each
    pixel will be a bead of 8x8 pixel. *)
Definition beadModeImageBounds (m : beadMachine) (imageBounds : image.Rectangle)
    : image.Rectangle :=
  if beadStyle m then
    {| image.Min := image.Min imageBounds;
       image.Max :=
         {| image.X := GoInt.mul (image.X (image.Max imageBounds)) 8;
            image.Y := GoInt.mul (image.Y (image.Max imageBounds)) 8 |} |}
  else imageBounds.

(** The width and height the image is resized to: a given boards number
    overrides a possible given pixel number. *)
Definition newWidth (m : beadMachine) : Z :=
  if 0 <? boardsWidth m then GoInt.mul (boardsWidth m) (boardDimension m)
  else width m.
Definition newHeight (m : beadMachine) : Z :=
  if 0 <? boardsHeight m then GoInt.mul (boardsHeight m) (boardDimension m)
  else height m.

(** The image after filtering and, if needed, resizing, with the [resized]
    flag. *)
Definition prepareImage (w : World) (m : beadMachine) (inputImage : image.Image)
    : image.Image * bool :=
  let inputImage := applyFilters w m inputImage in
  if (0 <? newWidth m) || (0 <? newHeight m) then
    (imaging_Resize w inputImage (newWidth m) (newHeight m), true)
  else (inputImage, false).

Definition float64_cm (d : Z) : math.float64 :=
  math.mul (math.float64_of_int d) math.half.

Definition process (w : World) (m : beadMachine) : M unit :=
  emit (EvReadImageFile (inputFileName m)) ;;;
  match readImageFile w (inputFileName m) with
  | inr err =>
      logError "Reading image file failed" [zap.Error err] ;;;
      exit
  | inl inputImage =>
      let imageBounds := image.Bounds inputImage in
      logInfo "Image pixels"
        [zap.Int "width" (image.Dx imageBounds);
         zap.Int "height" (image.Dy imageBounds)] ;;;
      let '(inputImage, resized) := prepareImage w m inputImage in
      let imageBounds := if resized then image.Bounds inputImage else imageBounds in
      logInfo "Bead board used"
        [zap.Int "width" (calculateBeadBoardsNeeded (image.Dx imageBounds));
         zap.Int "height" (calculateBeadBoardsNeeded (image.Dy imageBounds))] ;;;
      logInfo "Bead board measurement in cm"
        [zap.Float64 "width" (float64_cm (image.Dx imageBounds));
         zap.Float64 "height" (float64_cm (image.Dy imageBounds))] ;;;
      let* outputImage :=
        match image.NewRGBA (beadModeImageBounds m imageBounds) with
        | Some img => ret img
        | None => panic
        end in
      (if resized || beadStyle m then
         logInfo "Output image pixels"
           [zap.Int "width" (image.Dx imageBounds);
            zap.Int "height" (image.Dy imageBounds)]
       else ret tt) ;;;
      let* outputImage :=
        (if noColorMatching m then
           ret (copyPixels imageBounds inputImage outputImage)
         else
           emit (EvProcessImage (paletteFileName m)) ;;;
           match processImage w m imageBounds inputImage outputImage
                   (paletteFileName m) with
           | (_, Some err) =>
               logError "Processing image failed" [zap.Error err] ;;;
               exit
           | (outputImage, None) =>
               logInfo "Image processed" [zap.Duration "duration" (time_Since w)] ;;;
               ret outputImage
           end) in
      emit (EvCreate (outputFileName m)) ;;;
      match os_Create w (outputFileName m) with
      | Some err =>
          logError "Opening output image file failed" [zap.Error err] ;;;
          exit
      | None =>
          emit (EvEncode (outputFileName m) outputImage) ;;;
          emit (EvClose (outputFileName m))
      end
  end.

(** ** [startBeadMachine] *)

Definition startBeadMachine (w : World) (fs : cobra.FlagSet) (args : list string)
    : M unit :=
  match args with
  | [] => emit EvHelp ;;; exit
  | _ :: _ => process w (newBeadMachine fs)
  end.

(** ** [calculateBeadUsage] *)

(** A channel of bead names: the values sent and not yet received, oldest
    first, and whether the channel has been closed. *)
Record Chan : Type := mkChan { queue : list string; closed : bool }.

(** [colorUsageCounts[beadName]++]: a missing key reads as zero. *)
Definition countBead (colorUsageCounts : gmap string Z) (beadName : string)
    : gmap string Z :=
  <[beadName := GoInt.add (default 0 (colorUsageCounts !! beadName)) 1]>
    colorUsageCounts.

(** The table after the [range] loop has received [beadNames] in order. *)
Definition countBeads (beadNames : list string) : gmap string Z :=
  foldl countBead ∅ beadNames.

Definition logBeadColors (colorUsageCounts : gmap string Z) : Event :=
  EvLog zap.InfoLevel "Bead colors"
    [zap.Int "count" (Z.of_nat (size colorUsageCounts))].

Definition logBeadsUsed (entry : string * Z) : Event :=
  EvLog zap.InfoLevel "Beads used"
    [zap.String "color" (fst entry); zap.Int "count" (snd entry)].

(** Where the goroutine running [calculateBeadUsage] stands: in the loop
    over the channel, in the loop over the map with the entries still to
    be logged, or past the send on [beadStatsDone]. *)
Inductive UsagePC : Type :=
  | Ranging (colorUsageCounts : gmap string Z)
  | Reporting (colorUsageCounts : gmap string Z) (rest : list (string * Z))
  | Finished.

(** One step of [calculateBeadUsage] against the channel, with the events
    it performs.  A receive blocks on an open empty channel (no step); the
    [range] loop ends on a closed and drained one.  Go iterates a map in an
    unspecified order, hence any ordering of the entries.  [beadStatsDone]
    is unbuffered, so the last step is the rendezvous of the send with a
    goroutine receiving from it; the receiver is not in [main.go], and the
    relation leaves open when one is there. *)
Inductive calculateBeadUsage_step :
    UsagePC * Chan -> list Event -> UsagePC * Chan -> Prop :=
  | usage_receive c beadName q cl :
      calculateBeadUsage_step
        (Ranging c, mkChan (beadName :: q) cl) []
        (Ranging (countBead c beadName), mkChan q cl)
  | usage_range_end c entries :
      entries ≡ₚ map_to_list c ->
      calculateBeadUsage_step
        (Ranging c, mkChan [] true) [logBeadColors c]
        (Reporting c entries, mkChan [] true)
  | usage_log_entry c entry rest ch :
      calculateBeadUsage_step
        (Reporting c (entry :: rest), ch) [logBeadsUsed entry]
        (Reporting c rest, ch)
  | usage_signal c ch :
      calculateBeadUsage_step
        (Reporting c [], ch) [EvBeadStatsDone]
        (Finished, ch).

(** What the producers may do to the channel: send a name or close it, both
    only while it is open. *)
Inductive producer_step : Chan -> option string -> Chan -> Prop :=
  | producer_send q beadName :
      producer_step (mkChan q false) (Some beadName) (mkChan (q ++ [beadName]) false)
  | producer_close q :
      producer_step (mkChan q false) None (mkChan q true).

(** The aggregator running next to its producers: its control point, the
    channel, every name sent so far and every event performed so far. *)
Record UsageSystem : Type := mkUsageSystem {
  usagePC : UsagePC;
  usageChan : Chan;
  sent : list string;
  performed : list Event
}.

Inductive system_step : UsageSystem -> UsageSystem -> Prop :=
  | sys_aggregator pc ch evs pc' ch' names out :
      calculateBeadUsage_step (pc, ch) evs (pc', ch') ->
      system_step (mkUsageSystem pc ch names out)
                  (mkUsageSystem pc' ch' names (out ++ evs))
  | sys_send pc ch beadName ch' names out :
      producer_step ch (Some beadName) ch' ->
      system_step (mkUsageSystem pc ch names out)
                  (mkUsageSystem pc ch' (names ++ [beadName]) out)
  | sys_close pc ch ch' names out :
      producer_step ch None ch' ->
      system_step (mkUsageSystem pc ch names out)
                  (mkUsageSystem pc ch' names out).

Definition usage_init : UsageSystem :=
  mkUsageSystem (Ranging ∅) (mkChan [] false) [] [].

Definition reachable (s : UsageSystem) : Prop := rtc system_step usage_init s.

(** ** [main]: the registered flags *)

(** One call of [BoolP], [StringP], [IntP] or [Float64P]: the flag's name,
    its one-letter shorthand (empty for none) and its default value. *)
Record FlagDef : Type := mkFlagDef {
  flagName : string;
  flagShorthand : string;
  flagDefault : cobra.FlagValue
}.

Definition float_zero : math.float64 := S754_zero false.

(** The flags [main] registers on the root command, in program order. *)
Definition main_flags : list FlagDef :=
  [ mkFlagDef "verbose" "v" (cobra.VBool false);
    (* files *)
    mkFlagDef "input" "i" (cobra.VString "");
    mkFlagDef "output" "o" (cobra.VString "");
    mkFlagDef "html" "l" (cobra.VString "");
    mkFlagDef "palette" "p" (cobra.VString "colors_hama.json");
    (* dimensions *)
    mkFlagDef "width" "w" (cobra.VInt 0);
    mkFlagDef "height" "e" (cobra.VInt 0);
    mkFlagDef "boardswidth" "x" (cobra.VInt 0);
    mkFlagDef "boardsheight" "y" (cobra.VInt 0);
    mkFlagDef "boarddimension" "d" (cobra.VInt 20);
    (* bead types *)
    mkFlagDef "beadstyle" "b" (cobra.VBool false);
    mkFlagDef "translucent" "t" (cobra.VBool false);
    mkFlagDef "flourescent" "f" (cobra.VBool false);
    (* filters *)
    mkFlagDef "nocolormatching" "n" (cobra.VBool false);
    mkFlagDef "grey" "g" (cobra.VBool false);
    mkFlagDef "blur" "" (cobra.VFloat64 float_zero);
    mkFlagDef "sharpen" "" (cobra.VFloat64 float_zero);
    mkFlagDef "gamma" "" (cobra.VFloat64 float_zero);
    mkFlagDef "contrast" "" (cobra.VFloat64 float_zero);
    mkFlagDef "brightness" "" (cobra.VFloat64 float_zero) ].

(** The flag set under construction: the values by name and the shorthands
    taken so far. *)
Record Registry : Type := mkRegistry {
  flagValues : gmap string cobra.FlagValue;
  shorthandsUsed : gset string
}.

(** Registering one flag.  The library panics ([None]) when the name is
    already registered, or when the shorthand is longer than one character
    or already taken. *)
Definition addFlag (r : option Registry) (f : FlagDef) : option Registry :=
  match r with
  | None => None
  | Some r =>
      if decide (is_Some (flagValues r !! flagName f)) then None
      else if decide (flagShorthand f = ""%string) then
        Some (mkRegistry (<[flagName f := flagDefault f]> (flagValues r))
                (shorthandsUsed r))
      else if (1 <? Z.of_nat (String.length (flagShorthand f)))
              || bool_decide (flagShorthand f ∈ shorthandsUsed r) then None
      else
        Some (mkRegistry (<[flagName f := flagDefault f]> (flagValues r))
                ({[flagShorthand f]} ∪ shorthandsUsed r))
  end.

Definition registerFlags (fl : list FlagDef) : option Registry :=
  foldl addFlag (Some (mkRegistry ∅ ∅)) fl.

(** * Vocabulary of the properties *)

(** How often [name] occurs among the received names. *)
Definition occurrences (name : string) (names : list string) : nat :=
  length (filter (λ n, n = name) names).

(** What holds at every point of a run of the aggregator next to its
    producers. *)
Definition usage_inv (s : UsageSystem) : Prop :=
  match usagePC s with
  | Ranging c =>
      performed s = [] ∧
      ∃ received, sent s = received ++ queue (usageChan s) ∧ c = countBeads received
  | Reporting c rest =>
      usageChan s = mkChan [] true ∧ c = countBeads (sent s) ∧
      ∃ logged, logged ++ rest ≡ₚ map_to_list c ∧
        performed s = logBeadColors c :: (logBeadsUsed <$> logged)
  | Finished =>
      usageChan s = mkChan [] true ∧
      ∃ entries, entries ≡ₚ map_to_list (countBeads (sent s)) ∧
        performed s =
          logBeadColors (countBeads (sent s)) :: (logBeadsUsed <$> entries)
          ++ [EvBeadStatsDone]
  end.

(** A complete run: one name is sent, the channel is closed, the name is
    received, the table is reported and the signal is given. *)
Definition usage_run_red : UsageSystem :=
  mkUsageSystem Finished (mkChan [] true) ["red"]
    [logBeadColors (countBeads ["red"]); logBeadsUsed ("red", 1); EvBeadStatsDone].

(** The quotient by 29 rounded half up, [floor (d / 29 + 1/2)], and rounded
    up, in integer arithmetic. *)
Definition roundHalfUp29 (d : Z) : Z := (2 * d + 29) / 58.

Definition ceiling29 (d : Z) : Z := (d + 28) / 29.

(** The image [process] works on after filtering and resizing, and the
    bounds it iterates over. *)
Definition processedImage (w : World) (m : beadMachine) (img0 : image.Image)
    : image.Image :=
  fst (prepareImage w m img0).

Definition processedBounds (w : World) (m : beadMachine) (img0 : image.Image)
    : image.Rectangle :=
  if snd (prepareImage w m img0) then image.Bounds (processedImage w m img0)
  else image.Bounds img0.

(** The log entries written between reading the file and the pixel pass. *)
Definition logsBeforePixels (w : World) (m : beadMachine) (img0 : image.Image)
    : list Event :=
  let b := processedBounds w m img0 in
  [EvReadImageFile (inputFileName m);
   EvLog zap.InfoLevel "Image pixels"
     [zap.Int "width" (image.Dx (image.Bounds img0));
      zap.Int "height" (image.Dy (image.Bounds img0))];
   EvLog zap.InfoLevel "Bead board used"
     [zap.Int "width" (calculateBeadBoardsNeeded (image.Dx b));
      zap.Int "height" (calculateBeadBoardsNeeded (image.Dy b))];
   EvLog zap.InfoLevel "Bead board measurement in cm"
     [zap.Float64 "width" (float64_cm (image.Dx b));
      zap.Float64 "height" (float64_cm (image.Dy b))]]
  ++ (if snd (prepareImage w m img0) || beadStyle m then
        [EvLog zap.InfoLevel "Output image pixels"
           [zap.Int "width" (image.Dx b); zap.Int "height" (image.Dy b)]]
      else []).

(** Writing the output file, the last step of [process]. *)
Definition writeOutput (w : World) (m : beadMachine) (out : image.RGBA) : M unit :=
  match os_Create w (outputFileName m) with
  | Some err =>
      ([EvCreate (outputFileName m);
        EvLog zap.ErrorLevel "Opening output image file failed" [zap.Error err]],
       Return)
  | None =>
      ([EvCreate (outputFileName m); EvEncode (outputFileName m) out;
        EvClose (outputFileName m)], Value tt)
  end.

(** Events that invoke the colour matching, and events that touch the
    output file. *)
Definition is_processImage (e : Event) : bool :=
  match e with EvProcessImage _ => true | _ => false end.

Definition writes_output (e : Event) : bool :=
  match e with EvCreate _ | EvEncode _ _ | EvClose _ => true | _ => false end.

(** The images handed to the PNG encoder during a run. *)
Definition encoded (t : list Event) : list image.RGBA :=
  omap (fun e => match e with EvEncode _ img => Some img | _ => None end) t.

(** The board counts logged during a run. *)
Definition boardsLogged (t : list Event) : list (Z * Z) :=
  omap (fun e =>
          match e with
          | EvLog zap.InfoLevel "Bead board used" [zap.Int _ bw; zap.Int _ bh] =>
              Some (bw, bh)
          | _ => None
          end) t.

(** The bounds of a 1x1 image at the origin. *)
Definition unitSquare : image.Rectangle :=
  image.mkRectangle (image.mkPoint 0 0) (image.mkPoint 1 1).

(** A 1x1 image holding the colour [c]. *)
Definition onePixel (c : color.Color) : image.Image :=
  image.mkImage unitSquare (fun _ _ => c).

(** A world in which [in.png] decodes to [img] and no other file exists,
    no filter is configured, resizing yields an image of the requested
    size, matching yields [matchError] and the output file can be created. *)
Definition sampleWorld (img : image.Image) (matchError : option string) : World :=
  {| readImageFile name :=
       if decide (name = "in.png") then inl img
       else inr "open: no such file or directory"%string;
     applyFilters _ i := i;
     imaging_Resize i nw nh :=
       image.mkImage (image.mkRectangle (image.mkPoint 0 0) (image.mkPoint nw nh))
         (fun _ _ => image.At i 0 0);
     processImage _ _ _ out _ := (out, matchError);
     os_Create _ := None;
     time_Since := 0 |}.

Definition sampleFlags (beadstyle nocolormatching : bool) : cobra.FlagSet :=
  list_to_map
    [("input"%string, cobra.VString "in.png");
     ("output"%string, cobra.VString "out.png");
     ("palette"%string, cobra.VString "colors_hama.json");
     ("boarddimension"%string, cobra.VInt 20);
     ("beadstyle"%string, cobra.VBool beadstyle);
     ("nocolormatching"%string, cobra.VBool nocolormatching)].

(** A 1x1 image whose bounds start at (2, 3), as the GIF decoder yields
    for a frame placed at that offset of the logical screen. *)
Definition offsetPixel (c : color.Color) : image.Image :=
  image.mkImage (image.mkRectangle (image.mkPoint 2 3) (image.mkPoint 3 4))
    (fun _ _ => c).

(** A world like [sampleWorld] whose one file is [in.gif]. *)
Definition gifWorld (img : image.Image) : World :=
  {| readImageFile name :=
       if decide (name = "in.gif"%string) then inl img
       else inr "open: no such file or directory"%string;
     applyFilters := applyFilters (sampleWorld img None);
     imaging_Resize := imaging_Resize (sampleWorld img None);
     processImage := processImage (sampleWorld img None);
     os_Create := os_Create (sampleWorld img None);
     time_Since := 0 |}.

(** Reading the input image fails, or the colour matching runs on the
    allocated output image and fails. *)
Definition run_fails (w : World) (m : beadMachine) : Prop :=
  match readImageFile w (inputFileName m) with
  | inr _ => True
  | inl img0 =>
      noColorMatching m = false /\
      match image.NewRGBA (beadModeImageBounds m (processedBounds w m img0)) with
      | Some out0 =>
          is_Some (snd (processImage w m (processedBounds w m img0)
                          (processedImage w m img0) out0 (paletteFileName m)))
      | None => False
      end
  end.




(** The number of beads a table accounts for: the sum of its counts. *)
Definition totalBeads (c : gmap string Z) : Z :=
  map_fold (fun _ n acc => n + acc) 0 c.

(** A step the aggregator takes by itself: the receive of a waiting name,
    the end of the [range] loop or a log entry.  The send on
    [beadStatsDone] is not among them: that channel is unbuffered, so the
    send is a rendezvous with a goroutine receiving from it. *)
Definition aggregator_step (s s' : UsageSystem) : Prop :=
  exists evs pc' ch',
    calculateBeadUsage_step (usagePC s, usageChan s) evs (pc', ch') /\
    pc' <> Finished /\
    s' = mkUsageSystem pc' ch' (sent s) (performed s ++ evs).

(** A run in which two names wait in a closed channel. *)
Definition usage_two_waiting : UsageSystem :=
  mkUsageSystem (Ranging ∅) (mkChan ["red"; "blue"] true) ["red"; "blue"] [].

(** The resizer returns an image of exactly the size it was asked for. *)
Definition resize_honours_request (w : World) (m : beadMachine)
    (img0 : image.Image) : Prop :=
  let resized :=
    image.Bounds (imaging_Resize w (applyFilters w m img0) (newWidth m) (newHeight m)) in
  image.Dx resized = newWidth m /\ image.Dy resized = newHeight m.

(** Events that hand an image to the encoder or close the output file. *)
Definition is_encode_or_close (e : Event) : bool :=
  match e with EvEncode _ _ | EvClose _ => true | _ => false end.

(** The red, green and blue channels of the 8-bit colours whose 16-bit
    channels repeat the 8-bit value: [color.RGBA], [color.Gray] and opaque
    [color.NRGBA]. *)
Definition channels8 (c : color.Color) : option (Z * Z * Z) :=
  match c with
  | color.OfRGBA c => Some (color.R c, color.G c, color.B c)
  | color.OfGray y => Some (y, y, y)
  | color.OfNRGBA r g b 255 => Some (r, g, b)
  | _ => None
  end.

(** A 2x2 image lying at negative coordinates. *)
Definition negativeSquare : image.Image :=
  image.mkImage (image.mkRectangle (image.mkPoint (-4) (-4)) (image.mkPoint (-2) (-2)))
    (fun _ _ => color.OfGray 7).

(** A world like [sampleWorld] in which the output file cannot be created. *)
Definition readOnlyWorld (img : image.Image) : World :=
  {| readImageFile := readImageFile (sampleWorld img None);
     applyFilters := applyFilters (sampleWorld img None);
     imaging_Resize := imaging_Resize (sampleWorld img None);
     processImage := processImage (sampleWorld img None);
     os_Create _ := Some "permission denied"%string;
     time_Since := 0 |}.

(** The image a run hands to the encoder, from the input image [img0] and
    the freshly allocated output image [out0]: the copy of the source
    pixels, or what the colour matching made of [out0]. *)
Definition renderedImage (w : World) (m : beadMachine) (img0 : image.Image)
    (out0 : image.RGBA) : image.RGBA :=
  if noColorMatching m then
    copyPixels (processedBounds w m img0) (processedImage w m img0) out0
  else
    fst (processImage w m (processedBounds w m img0) (processedImage w m img0)
           out0 (paletteFileName m)).

(** An event of a run of [process] on machine [m] names only the files of
    [m]: the input file is the one read, the palette the one handed to the
    matching, the output file the one created, encoded to and closed; a
    run shows no help and gives no signal on [beadStatsDone]. *)
Definition names_files_of (m : beadMachine) (e : Event) : Prop :=
  match e with
  | EvReadImageFile name => name = inputFileName m
  | EvProcessImage palette => palette = paletteFileName m
  | EvCreate name | EvEncode name _ | EvClose name => name = outputFileName m
  | EvLog _ _ _ => True
  | EvHelp | EvBeadStatsDone => False
  end.

(** Log entries at error level, and creations of a file. *)
Definition is_error_entry (e : Event) : bool :=
  match e with EvLog zap.ErrorLevel _ _ => true | _ => false end.

Definition is_create (e : Event) : bool :=
  match e with EvCreate _ => true | _ => false end.

(** Two flag values of the same type. *)
Definition sameType (v v' : cobra.FlagValue) : bool :=
  match v, v' with
  | cobra.VString _, cobra.VString _
  | cobra.VInt _, cobra.VInt _
  | cobra.VBool _, cobra.VBool _
  | cobra.VFloat64 _, cobra.VFloat64 _ => true
  | _, _ => false
  end.

(** The flag the library adds to the flag set of the command before it
    runs [startBeadMachine], when no flag named [help] is registered. *)
Definition helpFlag : FlagDef := mkFlagDef "help" "h" (cobra.VBool false).

(** What parsing a command line leaves in the flag set: every flag of [fl]
    holds a value of the type it was registered with.  The flag set may
    hold other flags, as it does [help]. *)
Definition holdsRegistered (fl : list FlagDef) (fs : cobra.FlagSet) : Prop :=
  forall f, f ∈ fl ->
    exists v, fs !! flagName f = Some v /\ sameType (flagDefault f) v = true.

(** The settings of a machine, read back as a flag set. *)
Definition machineFlags (m : beadMachine) : cobra.FlagSet :=
  list_to_map
    [("verbose"%string,
      cobra.VBool match zap.level (logger m) with
                  | zap.DebugLevel => true
                  | _ => false
                  end);
     ("input"%string, cobra.VString (inputFileName m));
     ("output"%string, cobra.VString (outputFileName m));
     ("html"%string, cobra.VString (htmlFileName m));
     ("palette"%string, cobra.VString (paletteFileName m));
     ("width"%string, cobra.VInt (width m));
     ("height"%string, cobra.VInt (height m));
     ("boardswidth"%string, cobra.VInt (boardsWidth m));
     ("boardsheight"%string, cobra.VInt (boardsHeight m));
     ("boarddimension"%string, cobra.VInt (boardDimension m));
     ("beadstyle"%string, cobra.VBool (beadStyle m));
     ("translucent"%string, cobra.VBool (translucent m));
     ("flourescent"%string, cobra.VBool (flourescent m));
     ("nocolormatching"%string, cobra.VBool (noColorMatching m));
     ("grey"%string, cobra.VBool (greyScale m));
     ("blur"%string, cobra.VFloat64 (blur m));
     ("sharpen"%string, cobra.VFloat64 (sharpen m));
     ("gamma"%string, cobra.VFloat64 (gamma m));
     ("contrast"%string, cobra.VFloat64 (contrast m));
     ("brightness"%string, cobra.VFloat64 (brightness m))].

(** The flag set of a run without any flag on the command line: the
    registered defaults and the [help] flag. *)
Definition defaultFlags : cobra.FlagSet :=
  list_to_map ((fun f => (flagName f, flagDefault f)) <$> main_flags ++ [helpFlag]).

(** * Properties *)

(** ** Machine integers *)

Section GoIntFacts.

Import GoInt.

Lemma wrap_id z : in_range z -> wrap z = z.
Proof.
  unfold in_range, min_int, max_int, wrap. intros H.
  rewrite Z.mod_small by lia. lia.
Qed.

Lemma wrap_in_range z : in_range (wrap z).
Proof.
  unfold in_range, min_int, max_int, wrap.
  pose proof (Z.mod_pos_bound (z + 2 ^ 63) (2 ^ 64) ltac:(lia)). lia.
Qed.

Lemma wrap_succ_wrap z : wrap (wrap z + 1) = wrap (z + 1).
Proof.
  unfold wrap.
  replace ((z + 2 ^ 63) mod 2 ^ 64 - 2 ^ 63 + 1 + 2 ^ 63)
    with ((z + 2 ^ 63) mod 2 ^ 64 + 1) by lia.
  replace (z + 1 + 2 ^ 63) with ((z + 2 ^ 63) + 1) by lia.
  rewrite Zplus_mod_idemp_l. reflexivity.
Qed.

End GoIntFacts.

(** ** The usage table *)

Section UsageTable.

Implicit Types (names : list string) (name : string) (c : gmap string Z).

Lemma occurrences_snoc name names n :
  occurrences name (names ++ [n]) =
  (occurrences name names + (if decide (n = name) then 1 else 0))%nat.
Proof.
  unfold occurrences. rewrite filter_app, length_app. f_equal.
  rewrite filter_cons, filter_nil. by case_decide.
Qed.

Lemma occurrences_le_length name names :
  (occurrences name names <= length names)%nat.
Proof. unfold occurrences. apply length_filter. Qed.

Lemma occurrences_Permutation name names names' :
  names ≡ₚ names' -> occurrences name names = occurrences name names'.
Proof. unfold occurrences. intros H. by rewrite H. Qed.

Lemma countBeads_snoc names n :
  countBeads (names ++ [n]) = countBead (countBeads names) n.
Proof. unfold countBeads. by rewrite foldl_snoc. Qed.

(** The table holds, for each received name, the wrapped number of its
    occurrences, and nothing else. *)
Lemma countBeads_lookup names name :
  countBeads names !! name =
  if decide (occurrences name names = 0%nat) then None
  else Some (GoInt.wrap (Z.of_nat (occurrences name names))).
Proof.
  induction names as [| n names IH] using rev_ind.
  - done.
  - rewrite countBeads_snoc, occurrences_snoc. unfold countBead.
    destruct (decide (n = name)) as [-> | Hne].
    + rewrite lookup_insert_eq, IH. unfold GoInt.add.
      destruct (decide (occurrences name names = 0%nat)) as [Hz | Hz];
        destruct (decide ((occurrences name names + 1)%nat = 0%nat));
        try lia; simpl; f_equal.
      * rewrite Hz. done.
      * rewrite wrap_succ_wrap. f_equal. lia.
    + rewrite lookup_insert_ne by done. rewrite IH, Nat.add_0_r. done.
Qed.

Lemma countBeads_Permutation names names' :
  names ≡ₚ names' -> countBeads names = countBeads names'.
Proof.
  intros H. apply map_eq. intros name.
  by rewrite !countBeads_lookup, (occurrences_Permutation _ _ _ H).
Qed.

End UsageTable.

Section Aggregator.

(** The [range] loop alone, from a table [c] and a channel holding [names]. *)
Lemma range_loop_receives names : ∀ c cl,
  rtc (λ s s', calculateBeadUsage_step s [] s')
    (Ranging c, mkChan names cl)
    (Ranging (foldl countBead c names), mkChan [] cl).
Proof.
  induction names as [| n names IH]; intros c cl; simpl.
  - apply rtc_refl.
  - eapply rtc_l; [apply usage_receive | apply IH].
Qed.

Lemma usage_inv_init : usage_inv usage_init.
Proof. split; [done |]. exists []. done. Qed.

Lemma usage_inv_step s s' : usage_inv s -> system_step s s' -> usage_inv s'.
Proof.
  intros Hinv Hstep. destruct Hstep as
    [pc ch evs pc' ch' names out Hagg
    | pc ch beadName ch' names out Hprod
    | pc ch ch' names out Hprod]; unfold usage_inv in *; simpl in *.
  - inversion Hagg; subst; simpl in *.
    + destruct Hinv as [-> [received [-> ->]]]. split; [done |].
      exists (received ++ [beadName]).
      by rewrite countBeads_snoc, <- app_assoc.
    + destruct Hinv as [-> [received [-> ->]]].
      rewrite app_nil_r. repeat split; try done.
      exists []. done.
    + destruct Hinv as [-> [-> [logged [Hperm ->]]]].
      repeat split; try done.
      exists (logged ++ [entry]). split.
      * by rewrite <- app_assoc.
      * by rewrite fmap_app.
    + destruct Hinv as [-> [-> [logged [Hperm ->]]]].
      split; [done |]. exists logged. split.
      * by rewrite app_nil_r in Hperm.
      * done.
  - inversion Hprod; subst. destruct pc as [c | c rest |]; simpl in *.
    + destruct Hinv as [-> [received [-> ->]]]. split; [done |].
      exists received. by rewrite app_assoc.
    + by destruct Hinv as [? _].
    + by destruct Hinv as [? _].
  - inversion Hprod; subst. destruct pc as [c | c rest |]; simpl in *.
    + done.
    + by destruct Hinv as [? _].
    + by destruct Hinv as [? _].
Qed.

Lemma reachable_usage_inv s : reachable s -> usage_inv s.
Proof.
  unfold reachable. revert s. apply rtc_ind_r.
  - apply usage_inv_init.
  - eauto using usage_inv_step.
Qed.

End Aggregator.

(** C4: for every finite sequence of bead names consumed by
    [calculateBeadUsage] (short enough for an [int] counter), the table
    maps each name to the number of its occurrences, a name that does not
    occur has no entry, the [range] loop reaches exactly this table, and a
    permutation of the sequence gives the same table. *)
Theorem calculateBeadUsage_table_counts_occurrences (names : list string) :
  Z.of_nat (length names) <= GoInt.max_int ->
  (∀ name,
     countBeads names !! name =
     if decide (occurrences name names = 0%nat) then None
     else Some (Z.of_nat (occurrences name names))) ∧
  (∀ cl,
     rtc (λ s s', calculateBeadUsage_step s [] s')
       (Ranging ∅, mkChan names cl) (Ranging (countBeads names), mkChan [] cl)) ∧
  (∀ names', names' ≡ₚ names -> countBeads names' = countBeads names).
Proof.
  intros Hlen. split; [| split].
  - intros name. rewrite countBeads_lookup. case_decide; [done |].
    f_equal. apply wrap_id.
    pose proof (occurrences_le_length name names).
    unfold GoInt.in_range, GoInt.min_int. lia.
  - intros cl. apply range_loop_receives.
  - intros names' H. by apply countBeads_Permutation.
Qed.

Lemma calculateBeadUsage_table_counts_occurrences_witness :
  countBeads ["red"; "blue"; "red"; "red"] !! "red" = Some 3 ∧
  countBeads ["red"; "blue"; "red"; "red"] !! "green" = None ∧
  countBeads ["blue"; "red"; "red"; "red"] = countBeads ["red"; "blue"; "red"; "red"].
Proof.
  pose proof (calculateBeadUsage_table_counts_occurrences
                ["red"; "blue"; "red"; "red"]) as H.
  destruct H as [Hlookup [_ Hperm]].
  - vm_compute. discriminate.
  - split; [exact (Hlookup "red") | split; [exact (Hlookup "green") |]].
    apply Hperm. apply perm_swap.
Defined.

(** C5: in every run of [calculateBeadUsage] next to its producers, nothing
    is reported while the channel is open or still holds a name: once an
    event has been performed the channel is closed and drained and the
    report starts with the number of distinct colours of all names sent,
    followed by entries of that table only; and the signal on
    [beadStatsDone] comes last, after one line for every entry. *)
Theorem calculateBeadUsage_reports_after_close (s : UsageSystem) :
  reachable s ->
  (performed s ≠ [] ->
     usageChan s = mkChan [] true ∧
     ∃ logged tail,
       logged ⊆+ map_to_list (countBeads (sent s)) ∧
       (tail = [] ∨ tail = [EvBeadStatsDone]) ∧
       performed s =
         logBeadColors (countBeads (sent s)) :: (logBeadsUsed <$> logged) ++ tail) ∧
  (EvBeadStatsDone ∈ performed s ->
     ∃ entries,
       entries ≡ₚ map_to_list (countBeads (sent s)) ∧
       performed s =
         logBeadColors (countBeads (sent s)) :: (logBeadsUsed <$> entries)
         ++ [EvBeadStatsDone]).
Proof.
  intros Hreach. apply reachable_usage_inv in Hreach.
  unfold usage_inv in Hreach.
  destruct (usagePC s) as [c | c rest |].
  - destruct Hreach as [Hout _]. rewrite Hout. split; [done |].
    intros H. by apply elem_of_nil in H.
  - destruct Hreach as [Hch [-> [logged [Hperm Hout]]]]. split.
    + intros _. split; [done |]. exists logged, []. split; [| split].
      * rewrite <- Hperm. by apply submseteq_inserts_r.
      * by left.
      * by rewrite app_nil_r.
    + rewrite Hout. intros H. exfalso.
      apply elem_of_cons in H as [H | H]; [discriminate |].
      apply list_elem_of_fmap in H as [e [H _]]. discriminate.
  - destruct Hreach as [Hch [entries [Hperm Hout]]]. split.
    + intros _. split; [done |]. exists entries, [EvBeadStatsDone].
      split; [| split]; [by rewrite Hperm | by right | done].
    + intros _. by exists entries.
Qed.

Lemma usage_run_red_reachable : reachable usage_run_red.
Proof.
  unfold reachable, usage_init, usage_run_red.
  eapply rtc_l.
  { apply (sys_send _ _ "red"), producer_send. }
  eapply rtc_l.
  { apply sys_close, producer_close. }
  eapply rtc_l.
  { eapply sys_aggregator, usage_receive. }
  eapply rtc_l.
  { eapply sys_aggregator, (usage_range_end _ [("red", 1)]).
    vm_compute. reflexivity. }
  eapply rtc_l.
  { eapply sys_aggregator, usage_log_entry. }
  eapply rtc_l.
  { eapply sys_aggregator, usage_signal. }
  apply rtc_refl.
Qed.

Lemma calculateBeadUsage_reports_after_close_witness :
  reachable usage_run_red ∧
  usageChan usage_run_red = mkChan [] true ∧
  ∃ entries,
    entries ≡ₚ map_to_list (countBeads (sent usage_run_red)) ∧
    performed usage_run_red =
      logBeadColors (countBeads (sent usage_run_red)) :: (logBeadsUsed <$> entries)
      ++ [EvBeadStatsDone].
Proof.
  pose proof (calculateBeadUsage_reports_after_close usage_run_red
                usage_run_red_reachable) as [Hfirst Hdone].
  split; [exact usage_run_red_reachable |]. split.
  - apply Hfirst. discriminate.
  - apply Hdone. unfold usage_run_red; simpl.
    apply elem_of_cons. right. apply elem_of_cons. right. apply elem_of_cons. by left.
Defined.

(** ** binary64 arithmetic on the values [calculateBeadBoardsNeeded] meets *)

(** The number of binary digits of a positive number. *)
Lemma digits2_pos_bounds p :
  2 ^ (Zpos (digits2_pos p) - 1) <= Zpos p < 2 ^ Zpos (digits2_pos p).
Proof.
  induction p as [p IH | p IH |]; cbn [digits2_pos].
  - rewrite Pos2Z.inj_succ.
    replace (Z.succ (Zpos (digits2_pos p)) - 1) with (Zpos (digits2_pos p)) by lia.
    rewrite Z.pow_succ_r by lia.
    replace (Zpos (digits2_pos p)) with (Z.succ (Zpos (digits2_pos p) - 1)) at 1 by lia.
    rewrite Z.pow_succ_r by lia. lia.
  - rewrite Pos2Z.inj_succ.
    replace (Z.succ (Zpos (digits2_pos p)) - 1) with (Zpos (digits2_pos p)) by lia.
    rewrite Z.pow_succ_r by lia.
    replace (Zpos (digits2_pos p)) with (Z.succ (Zpos (digits2_pos p) - 1)) at 1 by lia.
    rewrite Z.pow_succ_r by lia. lia.
  - simpl. lia.
Qed.

Lemma Zdigits2_unique m k :
  2 ^ (k - 1) <= m < 2 ^ k -> 0 < k -> Zdigits2 m = k.
Proof.
  intros Hm Hk. assert (0 < m) by (pose proof (Z.pow_pos_nonneg 2 (k - 1)); lia).
  destruct m as [| p | p]; try lia. cbn [Zdigits2].
  pose proof (digits2_pos_bounds p) as Hp.
  destruct (Z.lt_trichotomy (Zpos (digits2_pos p)) k) as [Hlt | [Heq | Hgt]];
    [exfalso | exact Heq | exfalso].
  - assert (2 ^ Zpos (digits2_pos p) <= 2 ^ (k - 1))
      by (apply Z.pow_le_mono_r; lia). lia.
  - assert (2 ^ k <= 2 ^ (Zpos (digits2_pos p) - 1))
      by (apply Z.pow_le_mono_r; lia). lia.
Qed.

Lemma Zdigits2_bounds m :
  0 < m -> 2 ^ (Zdigits2 m - 1) <= m < 2 ^ Zdigits2 m /\ 0 < Zdigits2 m.
Proof.
  destruct m as [| p | p]; try lia. intros _. cbn [Zdigits2].
  split; [apply digits2_pos_bounds | lia].
Qed.

(** Repeated halving with the rounding bits. *)
Lemma iter_pos_comm {A} (f : A -> A) p : forall x,
  SpecFloat.iter_pos f p (f x) = f (SpecFloat.iter_pos f p x).
Proof.
  induction p as [p IH | p IH |]; intros x; cbn [SpecFloat.iter_pos].
  - by rewrite !IH.
  - by rewrite !IH.
  - done.
Qed.

Lemma iter_pos_succ {A} (f : A -> A) p : forall x,
  SpecFloat.iter_pos f (Pos.succ p) x = f (SpecFloat.iter_pos f p x).
Proof.
  induction p as [p IH | p IH |]; intros x.
  - change (Pos.succ (xI p)) with (xO (Pos.succ p)). cbn [SpecFloat.iter_pos].
    by rewrite !IH, !iter_pos_comm.
  - change (Pos.succ (xO p)) with (xI p). cbn [SpecFloat.iter_pos].
    by rewrite !iter_pos_comm.
  - done.
Qed.

Lemma shr_1_m m r s :
  0 <= m -> shr_m (shr_1 (Build_shr_record m r s)) = m / 2.
Proof.
  intros Hm. rewrite <- Z.div2_div.
  destruct m as [| [p | p |] | p]; try lia; reflexivity.
Qed.

Lemma shr_1_exact m :
  0 <= m -> m mod 2 = 0 ->
  shr_1 (Build_shr_record m false false) = Build_shr_record (m / 2) false false.
Proof.
  intros Hm Heven. rewrite <- Z.div2_div.
  destruct m as [| [p | p |] | p]; try lia; try reflexivity.
  - exfalso. rewrite Pos2Z.inj_xI in Heven.
    rewrite Z.add_comm, Z.mul_comm, Z.mod_add in Heven by lia. discriminate.
  - discriminate.
Qed.

Lemma iter_shr_1_m p : forall m r s,
  0 <= m ->
  shr_m (SpecFloat.iter_pos shr_1 p (Build_shr_record m r s)) = m / 2 ^ Zpos p.
Proof.
  induction p as [| p IH] using Pos.peano_ind; intros m r s Hm.
  - cbn [SpecFloat.iter_pos]. by rewrite shr_1_m.
  - rewrite iter_pos_succ. specialize (IH m r s Hm).
    destruct (SpecFloat.iter_pos shr_1 p _) as [m' r' s']; cbn [shr_m] in IH.
    rewrite shr_1_m by (subst; apply Z.div_pos; lia).
    rewrite IH, Pos2Z.inj_succ, Z.pow_succ_r by lia.
    rewrite Z.div_div by lia. f_equal. lia.
Qed.

Lemma iter_shr_1_exact p : forall m,
  0 <= m -> m mod 2 ^ Zpos p = 0 ->
  SpecFloat.iter_pos shr_1 p (Build_shr_record m false false) =
  Build_shr_record (m / 2 ^ Zpos p) false false.
Proof.
  induction p as [| p IH] using Pos.peano_ind; intros m Hm Hdiv.
  - cbn [SpecFloat.iter_pos]. by rewrite shr_1_exact.
  - rewrite Pos2Z.inj_succ, Z.pow_succ_r in Hdiv by lia.
    apply Z.mod_divide in Hdiv as [c Hc]; [| lia].
    rewrite iter_pos_succ, IH; [| lia |].
    + rewrite Pos2Z.inj_succ, Z.pow_succ_r by lia.
      rewrite shr_1_exact.
      * rewrite Z.div_div by lia. do 2 f_equal. lia.
      * apply Z.div_pos; lia.
      * subst m. replace (c * (2 * 2 ^ Zpos p)) with (c * 2 * 2 ^ Zpos p) by lia.
        rewrite Z.div_mul by lia. rewrite Z.mod_mul; lia.
    + subst m. replace (c * (2 * 2 ^ Zpos p)) with (c * 2 * 2 ^ Zpos p) by lia.
      apply Z.mod_mul. lia.
Qed.

Lemma fexp_normal e :
  -1074 <= e - 53 -> fexp math.prec math.emax e = e - 53.
Proof. unfold fexp, emin, math.prec, math.emax. lia. Qed.

Lemma shr_record_of_loc_m m l : shr_m (shr_record_of_loc m l) = m.
Proof. by destruct l as [| []]. Qed.

(** Shifting a mantissa of [53 + n] digits back to 53 digits. *)
Lemma shr_fexp_normal m e l n :
  0 < m -> Zdigits2 m = 53 + n -> 0 <= n -> -1074 <= e + n ->
  snd (shr_fexp math.prec math.emax m e l) = e + n /\
  shr_m (fst (shr_fexp math.prec math.emax m e l)) = m / 2 ^ n /\
  (l = loc_Exact -> m mod 2 ^ n = 0 ->
   fst (shr_fexp math.prec math.emax m e l) =
   Build_shr_record (m / 2 ^ n) false false).
Proof.
  intros Hm Hdig Hn He. unfold shr_fexp.
  rewrite fexp_normal by lia.
  replace (Zdigits2 m + e - 53 - e) with n by lia.
  unfold shr. destruct n as [| p | p]; [| | lia]; cbn [fst snd].
  - rewrite shr_record_of_loc_m, Z.div_1_r. split; [lia |]. split; [done |].
    by intros -> _.
  - split; [done |]. split.
    + destruct (shr_record_of_loc m l) as [m' r s] eqn:E.
      assert (m' = m) as -> by (by rewrite <- (shr_record_of_loc_m m l), E).
      apply iter_shr_1_m. lia.
    + intros -> Hdiv. cbn [shr_record_of_loc]. apply iter_shr_1_exact; [lia | done].
Qed.

Lemma round_nearest_even_cases m l :
  (round_nearest_even m l = m \/ round_nearest_even m l = m + 1) /\
  (l = loc_Exact -> round_nearest_even m l = m).
Proof.
  split; [| by intros ->].
  destruct l as [| []]; cbn [round_nearest_even]; auto.
  destruct (Z.even m); auto.
Qed.

(** Rounding a positive mantissa of [53 + n] digits: the result is a float
    with a 53-digit mantissa whose value is the truncated mantissa or the
    next one, and the truncated one when nothing is cut off. *)
Lemma binary_round_aux_normal mx ex lx n :
  0 < mx -> Zdigits2 mx = 53 + n -> 0 <= n ->
  -1074 <= ex + n -> ex + n + 1 <= 971 ->
  exists m3 e3,
    binary_round_aux math.prec math.emax false mx ex lx = S754_finite false m3 e3 /\
    2 ^ 52 <= Zpos m3 < 2 ^ 53 /\
    ((e3 = ex + n /\ (Zpos m3 = mx / 2 ^ n \/ Zpos m3 = mx / 2 ^ n + 1)) \/
     (e3 = ex + n + 1 /\ Zpos m3 = 2 ^ 52 /\ mx / 2 ^ n + 1 = 2 ^ 53)) /\
    (lx = loc_Exact -> mx mod 2 ^ n = 0 -> Zpos m3 = mx / 2 ^ n /\ e3 = ex + n).
Proof.
  intros Hmx Hdig Hn Hlo Hhi.
  destruct (Zdigits2_bounds mx Hmx) as [Hb _]. rewrite Hdig in Hb.
  replace (53 + n - 1) with (52 + n) in Hb by lia.
  rewrite !Z.pow_add_r in Hb by lia.
  assert (H2n : 0 < 2 ^ n) by (apply Z.pow_pos_nonneg; lia).
  assert (Hq : 2 ^ 52 <= mx / 2 ^ n < 2 ^ 53).
  { split.
    - apply Z.div_le_lower_bound; lia.
    - apply Z.div_lt_upper_bound; lia. }
  destruct (shr_fexp_normal mx ex lx n Hmx Hdig Hn Hlo) as (He1 & Hm1 & Hex1).
  unfold binary_round_aux.
  destruct (shr_fexp math.prec math.emax mx ex lx) as [mrs' e'].
  cbn [fst snd] in He1, Hm1, Hex1. subst e'.
  destruct (round_nearest_even_cases (shr_m mrs') (loc_of_shr_record mrs'))
    as [Hround Hround_exact].
  set (m2 := round_nearest_even (shr_m mrs') (loc_of_shr_record mrs')) in *.
  rewrite Hm1 in Hround, Hround_exact. clearbody m2.
  destruct (Z.eq_dec m2 (2 ^ 53)) as [Hcarry | Hnocarry].
  - (* the rounded mantissa has 54 digits *)
    assert (Hd2 : Zdigits2 m2 = 53 + 1).
    { apply Zdigits2_unique; [| lia]. rewrite Hcarry.
      split; [apply Z.le_refl | reflexivity]. }
    destruct (shr_fexp_normal m2 (ex + n) loc_Exact 1 ltac:(lia) Hd2 ltac:(lia)
                ltac:(lia)) as (He2 & _ & Hex2).
    destruct (shr_fexp math.prec math.emax m2 (ex + n) loc_Exact) as [mrs'' e''].
    cbn [fst snd] in He2, Hex2. subst e''.
    rewrite Hex2; [| done | by rewrite Hcarry]. cbn [shr_m].
    rewrite Hcarry. change (2 ^ 53 / 2 ^ 1) with (Zpos (2 ^ 52)%positive).
    cbv iota. replace (ex + n + 1 <=? math.emax - math.prec) with true
      by (symmetry; apply Z.leb_le; unfold math.emax, math.prec; lia).
    exists (2 ^ 52)%positive, (ex + n + 1). split; [done |]. split; [simpl; lia |].
    split.
    + right. split; [done |]. split; [done |].
      destruct Hround as [Hr | Hr]; rewrite Hcarry in Hr; lia.
    + intros Hl Hdiv. exfalso. specialize (Hex1 Hl Hdiv). subst mrs'.
      rewrite Hcarry in Hround_exact. specialize (Hround_exact eq_refl). lia.
  - assert (Hm2 : 2 ^ 52 <= m2 < 2 ^ 53)
      by (destruct Hround as [Hr | Hr]; rewrite Hr in *; lia).
    assert (Hd2 : Zdigits2 m2 = 53 + 0) by (apply Zdigits2_unique; [exact Hm2 | lia]).
    destruct (shr_fexp_normal m2 (ex + n) loc_Exact 0 ltac:(lia) Hd2 ltac:(lia)
                ltac:(lia)) as (He2 & _ & Hex2).
    destruct (shr_fexp math.prec math.emax m2 (ex + n) loc_Exact) as [mrs'' e''].
    cbn [fst snd] in He2, Hex2. subst e''.
    rewrite Hex2; [| done | by rewrite Z.mod_1_r]. cbn [shr_m].
    rewrite Z.div_1_r, Z.add_0_r.
    destruct m2 as [| p2 | p2] eqn:Ep; [lia | | lia].
    replace (ex + n <=? math.emax - math.prec) with true
      by (symmetry; apply Z.leb_le; unfold math.emax, math.prec; lia).
    exists p2, (ex + n). split; [done |]. split; [done |]. split.
    + left. split; [done |]. destruct Hround as [Hr | Hr]; rewrite Hr; auto.
    + intros Hl Hdiv. split; [| done]. specialize (Hex1 Hl Hdiv). subst mrs'.
      by apply Hround_exact.
Qed.

Lemma iter_xO_value m d : Zpos (Pos.iter xO m d) = Zpos m * 2 ^ Zpos d.
Proof.
  induction d as [| d IH] using Pos.peano_ind.
  - simpl. lia.
  - rewrite Pos.iter_succ, Pos2Z.inj_xO, IH, Pos2Z.inj_succ, Z.pow_succ_r by lia.
    lia.
Qed.

(** Aligning a mantissa to a smaller exponent multiplies it by a power of
    two; aligning to a larger or equal one leaves it alone. *)
Lemma shl_align_lt m e e' :
  e' < e ->
  snd (shl_align m e e') = e' /\
  Zpos (fst (shl_align m e e')) = Zpos m * 2 ^ (e - e').
Proof.
  intros H. unfold shl_align.
  destruct (e' - e) as [| p | p] eqn:E; try lia. cbn [fst snd].
  split; [done |]. rewrite iter_xO_value. f_equal. f_equal. lia.
Qed.

Lemma shl_align_ge m e e' : e <= e' -> shl_align m e e' = (m, e).
Proof.
  intros H. unfold shl_align. destruct (e' - e) as [| p | p] eqn:E; try lia; done.
Qed.

(** Converting a positive [int] of at most 53 digits is exact: the
    mantissa is the number shifted up to 53 digits. *)
Lemma float64_of_int_normal d k :
  0 < d -> Zdigits2 d = k -> k <= 53 ->
  exists m1,
    math.float64_of_int d = S754_finite false m1 (k - 53) /\
    Zpos m1 = d * 2 ^ (53 - k).
Proof.
  intros Hd Hk Hk53.
  destruct (Zdigits2_bounds d Hd) as [Hb Hkpos]. rewrite Hk in Hb, Hkpos.
  destruct d as [| p | p]; try lia.
  unfold math.float64_of_int, binary_normalize, binary_round.
  change (Zpos (digits2_pos p)) with (Zdigits2 (Zpos p)). rewrite Hk.
  rewrite fexp_normal by lia. rewrite Z.add_0_r.
  assert (Hshift : exists mz,
            shl_align p 0 (k - 53) = (mz, k - 53) /\ Zpos mz = Zpos p * 2 ^ (53 - k)).
  { destruct (Z.eq_dec k 53) as [-> | Hne].
    - exists p. rewrite shl_align_ge by lia. split; [done |]. simpl. lia.
    - destruct (shl_align_lt p 0 (k - 53) ltac:(lia)) as [He Hm].
      destruct (shl_align p 0 (k - 53)) as [mz ez]. cbn [fst snd] in *.
      exists mz. subst ez. split; [done |]. rewrite Hm. f_equal. f_equal. lia. }
  destruct Hshift as (mz & -> & Hmz).
  assert (Hmzb : 2 ^ 52 <= Zpos mz < 2 ^ 53).
  { rewrite Hmz.
    replace (2 ^ 52) with (2 ^ (k - 1) * 2 ^ (53 - k))
      by (rewrite <- Z.pow_add_r by lia; f_equal; lia).
    replace (2 ^ 53) with (2 ^ k * 2 ^ (53 - k))
      by (rewrite <- Z.pow_add_r by lia; f_equal; lia).
    assert (0 < 2 ^ (53 - k)) by (apply Z.pow_pos_nonneg; lia). nia. }
  destruct (binary_round_aux_normal (Zpos mz) (k - 53) loc_Exact 0)
    as (m3 & e3 & Hres & _ & _ & Hexact); try lia.
  { apply Zdigits2_unique; [exact Hmzb | lia]. }
  destruct Hexact as [Hm3 He3]; [done | by rewrite Z.mod_1_r |].
  rewrite Z.div_1_r in Hm3. exists m3. rewrite Hres. split; [| lia].
  f_equal. lia.
Qed.

(** Converting back gives the number again. *)
Lemma int_of_float64_of_int z :
  0 <= z < 2 ^ 53 -> math.int_of_float64 (math.float64_of_int z) = z.
Proof.
  intros Hz. destruct (Z.eq_dec z 0) as [-> | Hne]; [done |].
  destruct (Zdigits2_bounds z ltac:(lia)) as [Hb Hkpos].
  remember (Zdigits2 z) as k eqn:Hk.
  assert (k <= 53).
  { destruct (Z.le_gt_cases k 53) as [| Hgt]; [done |].
    assert (2 ^ 53 <= 2 ^ (k - 1)) by (apply Z.pow_le_mono_r; lia). lia. }
  destruct (float64_of_int_normal z k) as (m1 & -> & Hm1); try done; try lia.
  unfold math.int_of_float64, cond_Zopp.
  assert (Hval : (if 0 <=? k - 53 then Z.shiftl (Zpos m1) (k - 53)
                  else Z.shiftr (Zpos m1) (- (k - 53))) = z).
  { destruct (Z.leb_spec 0 (k - 53)).
    - assert (k = 53) as -> by lia. rewrite Z.shiftl_0_r, Hm1. simpl. lia.
    - rewrite Z.shiftr_div_pow2 by lia. rewrite Hm1.
      replace (- (k - 53)) with (53 - k) by lia.
      apply Z.div_mul. apply Z.pow_nonzero; lia. }
  rewrite Hval.
  replace ((GoInt.min_int <=? z) && (z <=? GoInt.max_int)) with true; [done |].
  symmetry. apply andb_true_iff.
  unfold GoInt.min_int, GoInt.max_int. split; [apply Z.leb_le | apply Z.leb_le]; lia.
Qed.

(** [int(math.Floor(x))] for a positive [x] with a negative exponent. *)
Lemma int_of_Floor m e :
  e < 0 -> Zpos m / 2 ^ (- e) < 2 ^ 53 ->
  math.int_of_float64 (math.Floor (S754_finite false m e)) = Zpos m / 2 ^ (- e).
Proof.
  intros He Hlt. unfold math.Floor.
  replace (0 <=? e) with false by (symmetry; apply Z.leb_gt; lia).
  cbn [cond_Zopp]. rewrite Z.shiftr_div_pow2 by lia.
  apply int_of_float64_of_int. split; [| done].
  apply Z.div_pos; [lia |]. apply Z.pow_pos_nonneg; lia.
Qed.

Lemma float_29_eq : float_29 = S754_finite false 8162774324609024 (-48).
Proof. vm_compute. reflexivity. Qed.

(** The quotient and exponent handed to the rounding when a 53-digit
    mantissa is divided by 29. *)
Lemma SFdiv_core_by_29 m1 e1 :
  2 ^ 52 <= Zpos m1 < 2 ^ 53 -> -1000 <= e1 <= 0 ->
  exists l,
    SFdiv_core_binary math.prec math.emax (Zpos m1) e1 8162774324609024 (-48) =
    (Zpos m1 * 32 / 29, e1 - 5, l).
Proof.
  intros Hm1 He1. unfold SFdiv_core_binary.
  rewrite (Zdigits2_unique (Zpos m1) 53) by (try exact Hm1; lia).
  change (Zdigits2 8162774324609024) with 53.
  replace (53 + e1 - (53 + -48)) with (e1 + 48) by lia.
  rewrite fexp_normal by lia.
  replace (Z.min (e1 + 48 - 53) (e1 - -48)) with (e1 - 5) by lia.
  replace (e1 - -48 - (e1 - 5)) with 53 by lia.
  rewrite Z.shiftl_mul_pow2 by lia.
  assert (Hq : Zpos m1 * 2 ^ 53 / 8162774324609024 = Zpos m1 * 32 / 29).
  { change 8162774324609024 with (29 * 2 ^ 48).
    replace (Zpos m1 * 2 ^ 53) with (Zpos m1 * 32 * 2 ^ 48) by lia.
    apply Z.div_mul_cancel_r; lia. }
  unfold Z.div in Hq at 1.
  destruct (Z.div_eucl (Zpos m1 * 2 ^ 53) 8162774324609024) as [q r].
  subst q. eauto.
Qed.

(** The error of the rounded quotient, in units of the last place [U]. *)
Lemma quotient_error m1 q m3 n U :
  29 * q <= 32 * m1 < 29 * q + 29 ->
  (n = 0 \/ n = 1) ->
  (m3 = q / 2 ^ n \/ m3 = q / 2 ^ n + 1) ->
  0 < U ->
  - (58 * U) <= 29 * (m3 * 2 ^ n * U) - 32 * m1 * U <= 58 * U.
Proof.
  intros Hq Hn Hm3 HU.
  assert (Herr : -58 <= 29 * (m3 * 2 ^ n) - 32 * m1 <= 58).
  { destruct Hn as [-> | ->]; [rewrite Z.pow_0_r, Z.div_1_r in * |
                               rewrite Z.pow_1_r in *];
      destruct Hm3 as [-> | ->]; Z.div_mod_to_equations; lia. }
  nia.
Qed.

(** Dividing an [int] between 64 and [2^51] by 29: the result is a
    positive float at most [2^-6] away from the exact quotient. *)
Lemma div_by_29_bounds d :
  64 <= d < 2 ^ 51 ->
  exists m3 e3,
    math.div (math.float64_of_int d) float_29 = S754_finite false m3 e3 /\
    2 ^ 52 <= Zpos m3 < 2 ^ 53 /\
    -51 <= e3 <= -5 /\
    - (29 * 2 ^ 47) <= 29 * (Zpos m3 * 2 ^ (e3 + 53)) - d * 2 ^ 53 <= 29 * 2 ^ 47.
Proof.
  intros Hd.
  destruct (Zdigits2_bounds d ltac:(lia)) as [Hb Hkpos].
  remember (Zdigits2 d) as k eqn:Hk.
  assert (Hk7 : 7 <= k).
  { destruct (Z.le_gt_cases 7 k) as [| Hlt]; [done |].
    assert (2 ^ k <= 2 ^ 6) by (apply Z.pow_le_mono_r; lia). lia. }
  assert (Hk51 : k <= 51).
  { destruct (Z.le_gt_cases k 51) as [| Hgt]; [done |].
    assert (2 ^ 51 <= 2 ^ (k - 1)) by (apply Z.pow_le_mono_r; lia). lia. }
  destruct (float64_of_int_normal d k) as (m1 & Hf & Hm1); try lia.
  assert (HU : 0 < 2 ^ (k - 5)) by (apply Z.pow_pos_nonneg; lia).
  assert (HU46 : 2 ^ (k - 5) <= 2 ^ 46) by (apply Z.pow_le_mono_r; lia).
  assert (HdU : d * 2 ^ 53 = 32 * Zpos m1 * 2 ^ (k - 5)).
  { rewrite Hm1. replace (2 ^ 53) with (2 ^ (53 - k) * 32 * 2 ^ (k - 5)); [lia |].
    change 32 with (2 ^ 5). rewrite <- !Z.pow_add_r by lia. f_equal. lia. }
  assert (Hm1b : 2 ^ 52 <= Zpos m1 < 2 ^ 53).
  { rewrite Hm1.
    replace (2 ^ 52) with (2 ^ (k - 1) * 2 ^ (53 - k))
      by (rewrite <- Z.pow_add_r by lia; f_equal; lia).
    replace (2 ^ 53) with (2 ^ k * 2 ^ (53 - k))
      by (rewrite <- Z.pow_add_r by lia; f_equal; lia).
    assert (0 < 2 ^ (53 - k)) by (apply Z.pow_pos_nonneg; lia). nia. }
  rewrite Hf, float_29_eq. unfold math.div. cbn [SFdiv xorb].
  destruct (SFdiv_core_by_29 m1 (k - 53) Hm1b ltac:(lia)) as [l ->].
  set (q := Zpos m1 * 32 / 29).
  assert (Hq : 29 * q <= 32 * Zpos m1 < 29 * q + 29)
    by (unfold q; Z.div_mod_to_equations; lia).
  assert (Hqb : 2 ^ 52 <= q < 2 ^ 54) by lia.
  set (n := if q <? 2 ^ 53 then 0 else 1).
  assert (Hn : n = 0 \/ n = 1) by (unfold n; destruct (q <? 2 ^ 53); auto).
  assert (Hdig : Zdigits2 q = 53 + n).
  { apply Zdigits2_unique; [| lia]. unfold n.
    destruct (Z.ltb_spec q (2 ^ 53)); [change (53 + 0 - 1) with 52; change (53 + 0) with 53
                                       | change (53 + 1 - 1) with 53; change (53 + 1) with 54];
      lia. }
  clearbody q n.
  destruct (binary_round_aux_normal q (k - 53 - 5) l n)
    as (m3 & e3 & -> & Hm3b & Hcases & _); try lia.
  exists m3, e3. split; [done |]. split; [done |]. split; [lia |].
  rewrite HdU.
  assert (H2n : 2 ^ n = 1 \/ 2 ^ n = 2) by (destruct Hn as [-> | ->]; auto).
  destruct Hcases as [[-> Hm3] | (-> & Hm3 & Hcarry)].
  - replace (k - 53 - 5 + n + 53) with (n + (k - 5)) by lia.
    rewrite Z.pow_add_r by lia.
    pose proof (quotient_error (Zpos m1) q (Zpos m3) n (2 ^ (k - 5))
                  Hq Hn Hm3 HU) as Herr.
    nia.
  - replace (k - 53 - 5 + n + 1 + 53) with (1 + (n + (k - 5))) by lia.
    rewrite !Z.pow_add_r by lia. rewrite Hm3.
    pose proof (quotient_error (Zpos m1) q (q / 2 ^ n + 1) n (2 ^ (k - 5))
                  Hq Hn ltac:(auto) HU) as Herr.
    replace (2 ^ 52 * (2 ^ 1 * (2 ^ n * 2 ^ (k - 5))))
      with ((q / 2 ^ n + 1) * 2 ^ n * 2 ^ (k - 5)) by (rewrite Hcarry; lia).
    nia.
Qed.

Lemma add_half_arith_exact a m3 M mW eW :
  2 <= a <= 48 ->
  2 ^ 52 <= m3 < 2 ^ 53 ->
  M = m3 * 2 ^ a + 2 ^ 52 ->
  mW = M / 2 ^ a -> eW = -53 + a ->
  eW < 0 /\ mW / 2 ^ (- eW) = M / 2 ^ 53.
Proof.
  intros Ha Hm3 -> -> ->. split; [lia |].
  replace (- (-53 + a)) with (53 - a) by lia.
  rewrite Z.div_div by (try apply Z.pow_pos_nonneg; lia).
  rewrite <- Z.pow_add_r by lia. do 2 f_equal. lia.
Qed.

Lemma add_half_arith_carry a m3 M mW eW :
  2 <= a <= 48 ->
  2 ^ 52 <= m3 < 2 ^ 53 ->
  M = m3 * 2 ^ a + 2 ^ 52 ->
  2 ^ 53 * 2 ^ a <= M ->
  (eW = -53 + (a + 1) /\
   (mW = M / 2 ^ (a + 1) \/ mW = M / 2 ^ (a + 1) + 1)) \/
  (eW = -53 + (a + 1) + 1 /\ mW = 2 ^ 52 /\ M / 2 ^ (a + 1) + 1 = 2 ^ 53) ->
  eW < 0 /\ mW / 2 ^ (- eW) = M / 2 ^ 53.
Proof.
  intros Ha Hm3 HM Hge Hcases.
  assert (HA : 0 < 2 ^ a) by (apply Z.pow_pos_nonneg; lia).
  assert (HB : 0 < 2 ^ (51 - a)) by (apply Z.pow_pos_nonneg; lia).
  assert (HAB : 2 ^ a * 2 ^ (51 - a) = 2 ^ 51)
    by (rewrite <- Z.pow_add_r by lia; f_equal; lia).
  assert (HB8 : 8 <= 2 ^ (51 - a))
    by (change 8 with (2 ^ 3); apply Z.pow_le_mono_r; lia).
  (* the sum lies in the first half-unit above the power of two [2^a] *)
  assert (HMlt : M < 2 ^ 53 * 2 ^ a + 2 ^ 52 + 1) by nia.
  assert (Hfloor : M / 2 ^ 53 = 2 ^ a).
  { symmetry. apply (Z.div_unique _ _ _ (M - 2 ^ 53 * 2 ^ a)); lia. }
  assert (Hq : 2 ^ 52 <= M / 2 ^ (a + 1) /\
               M / 2 ^ (a + 1) + 1 <= 2 ^ 52 + 2 ^ (51 - a)).
  { rewrite Z.pow_add_r, Z.pow_1_r by lia. split.
    - apply Z.div_le_lower_bound; lia.
    - assert (M / (2 ^ a * 2) < 2 ^ 52 + 2 ^ (51 - a)); [| lia].
      apply Z.div_lt_upper_bound; [lia |]. nia. }
  assert (HmW : eW = -53 + (a + 1) /\
                2 ^ 52 <= mW <= 2 ^ 52 + 2 ^ (51 - a)).
  { destruct Hcases as [[-> [-> | ->]] | (_ & _ & Hc)]; [lia | lia |].
    exfalso. nia. }
  destruct HmW as [-> HmW]. split; [lia |].
  replace (- (-53 + (a + 1))) with (52 - a) by lia.
  rewrite Hfloor. symmetry.
  replace (2 ^ (52 - a)) with (2 * 2 ^ (51 - a))
    by (rewrite <- Z.pow_succ_r by lia; f_equal; lia).
  apply (Z.div_unique _ _ _ (mW - 2 ^ 52)); nia.
Qed.

(** Adding one half to a positive float with exponent between -51 and -5:
    the integer part of the result is the integer part of the exact sum. *)
Lemma add_half_floor m3 e3 :
  2 ^ 52 <= Zpos m3 < 2 ^ 53 -> -51 <= e3 <= -5 ->
  exists mW eW,
    math.add (S754_finite false m3 e3) math.half = S754_finite false mW eW /\
    eW < 0 /\
    Zpos mW / 2 ^ (- eW) = (Zpos m3 * 2 ^ (e3 + 53) + 2 ^ 52) / 2 ^ 53.
Proof.
  intros Hm3 He3. unfold math.add, math.half. cbn [SFadd].
  replace (Z.min e3 (-53)) with (-53) by lia.
  destruct (shl_align_lt m3 e3 (-53)) as [Hea Hma]; [lia |].
  destruct (shl_align m3 e3 (-53)) as [ma ea]. cbn [fst snd] in Hea, Hma. subst ea.
  rewrite (shl_align_ge _ (-53) (-53)) by lia. cbn [fst cond_Zopp].
  change (Zpos ma + Zpos 4503599627370496)
    with (Zpos (ma + 4503599627370496)).
  cbn [binary_normalize]. unfold binary_round.
  set (pM := (ma + 4503599627370496)%positive).
  set (a := e3 + 53).
  assert (Ha : 2 <= a <= 48) by (unfold a; lia).
  assert (HM : Zpos pM = Zpos m3 * 2 ^ a + 2 ^ 52).
  { unfold pM, a. rewrite Pos2Z.inj_add, Hma.
    replace (e3 - -53) with (e3 + 53) by lia. reflexivity. }
  assert (HA : 0 < 2 ^ a) by (apply Z.pow_pos_nonneg; lia).
  set (n := if Zpos pM <? 2 ^ 53 * 2 ^ a then a else a + 1).
  assert (Hdig : Zdigits2 (Zpos pM) = 53 + n).
  { apply Zdigits2_unique; [| unfold n; destruct (_ <? _); lia].
    unfold n. destruct (Z.ltb_spec (Zpos pM) (2 ^ 53 * 2 ^ a)) as [Hlt | Hge].
    - replace (53 + a - 1) with (52 + a) by lia.
      rewrite !Z.pow_add_r by lia. nia.
    - replace (53 + (a + 1) - 1) with (53 + a) by lia.
      replace (53 + (a + 1)) with (1 + (53 + a)) by lia.
      rewrite !Z.pow_add_r by lia. nia. }
  assert (Hn : a <= n <= a + 1) by (unfold n; destruct (_ <? _); lia).
  change (Zpos (digits2_pos pM)) with (Zdigits2 (Zpos pM)). rewrite Hdig.
  rewrite fexp_normal by lia. rewrite shl_align_ge by lia.
  destruct (binary_round_aux_normal (Zpos pM) (-53) loc_Exact n)
    as (mW & eW & -> & _ & Hcases & Hexact); try lia.
  exists mW, eW. split; [done |]. fold a. rewrite <- HM.
  unfold n in Hcases, Hexact.
  destruct (Z.ltb_spec (Zpos pM) (2 ^ 53 * 2 ^ a)) as [Hlt | Hge].
  - destruct Hexact as [HmW HeW]; [done | |].
    + rewrite HM, Z.add_comm, Z.mod_add by lia.
      replace 52 with ((52 - a) + a) by lia.
      rewrite Z.pow_add_r by lia. apply Z.mod_mul. lia.
    + by apply (add_half_arith_exact a (Zpos m3)).
  - by apply (add_half_arith_carry a (Zpos m3)).
Qed.

(** The remaining small dimensions, by evaluation. *)
Lemma calculateBeadBoardsNeeded_small d :
  0 <= d < 64 -> calculateBeadBoardsNeeded d = (2 * d + 29) / 58.
Proof.
  intros Hd.
  assert (Hall : forallb (fun d => calculateBeadBoardsNeeded d =? (2 * d + 29) / 58)
                   (seqZ 0 64) = true) by (vm_compute; reflexivity).
  rewrite forallb_forall in Hall.
  apply Z.eqb_eq, Hall, list_elem_of_In, elem_of_seqZ. lia.
Qed.

(** C2: for every dimension from 0 up to [2^51], the result of
    [calculateBeadBoardsNeeded], computed in binary64, is the quotient of
    the dimension by 29 rounded half up: the integer [n] with
    [n <= d / 29 + 1/2 < n + 1].  It is not the ceiling of the quotient:
    whenever the remainder of the division by 29 is between 1 and 14 the
    result is one less than the ceiling. *)
Theorem calculateBeadBoardsNeeded_rounds_half_up (d : Z) :
  0 <= d < 2 ^ 51 ->
  calculateBeadBoardsNeeded d = roundHalfUp29 d /\
  58 * calculateBeadBoardsNeeded d <= 2 * d + 29 < 58 * calculateBeadBoardsNeeded d + 58 /\
  (1 <= d mod 29 <= 14 -> calculateBeadBoardsNeeded d = ceiling29 d - 1).
Proof.
  intros Hd.
  assert (Hcalc : calculateBeadBoardsNeeded d = roundHalfUp29 d).
  { unfold roundHalfUp29.
    destruct (Z.lt_ge_cases d 64) as [Hsmall | Hbig].
    - apply calculateBeadBoardsNeeded_small. lia.
    - unfold calculateBeadBoardsNeeded.
      destruct (div_by_29_bounds d ltac:(lia)) as (m3 & e3 & -> & Hm3 & He3 & Herr).
      destruct (add_half_floor m3 e3 Hm3 He3) as (mW & eW & -> & HeW & Hfloor).
      assert (HV : 0 < 2 ^ (e3 + 53) <= 2 ^ 48).
      { split; [apply Z.pow_pos_nonneg; lia | apply Z.pow_le_mono_r; lia]. }
      set (sV := Zpos m3 * 2 ^ (e3 + 53)) in *.
      assert (HsV : 0 <= sV < 2 ^ 53 * 2 ^ 48) by (unfold sV; nia).
      clearbody sV.
      rewrite int_of_Floor; [| done |].
      + rewrite Hfloor. Z.div_mod_to_equations. lia.
      + rewrite Hfloor. Z.div_mod_to_equations. lia. }
  rewrite Hcalc. unfold roundHalfUp29, ceiling29.
  split; [done |]. split; [| intros Hrem]; Z.div_mod_to_equations; lia.
Qed.

(** Some bound on the dimension is needed: at [29 * 2^48 + 14] the binary64
    quotient is already rounded to the next half, and the result is one
    more than the exact rounding. *)
Lemma calculateBeadBoardsNeeded_beyond_binary64 :
  calculateBeadBoardsNeeded (29 * 2 ^ 48 + 14) = roundHalfUp29 (29 * 2 ^ 48 + 14) + 1.
Proof. vm_compute. reflexivity. Qed.

Lemma calculateBeadBoardsNeeded_rounds_half_up_witness :
  calculateBeadBoardsNeeded 1000000 = 34483 /\
  calculateBeadBoardsNeeded 43 = 1 /\ ceiling29 43 = 2.
Proof.
  destruct (calculateBeadBoardsNeeded_rounds_half_up 1000000) as [H _]; [lia |].
  destruct (calculateBeadBoardsNeeded_rounds_half_up 43) as (_ & _ & H43); [lia |].
  split; [rewrite H; reflexivity |]. split; [| reflexivity].
  rewrite H43; [reflexivity | ]. vm_compute. split; discriminate.
Defined.

(** ** The output pixel buffer *)

Section PixelBuffer.

Implicit Types (p out : image.RGBA) (img : image.Image) (r b : image.Rectangle).

Lemma In_spec x y r :
  image.In x y r = true <->
  image.X (image.Min r) <= x < image.X (image.Max r) /\
  image.Y (image.Min r) <= y < image.Y (image.Max r).
Proof. unfold image.In. rewrite !andb_true_iff. lia. Qed.

Lemma Rect_SetRGBA p x y c : image.Rect (image.SetRGBA p x y c) = image.Rect p.
Proof. unfold image.SetRGBA. by destruct (image.In x y (image.Rect p)). Qed.

Lemma RGBAAt_SetRGBA p x y c x' y' :
  image.RGBAAt (image.SetRGBA p x y c) x' y' =
  if decide ((x', y') = (x, y) /\ image.In x y (image.Rect p) = true) then c
  else image.RGBAAt p x' y'.
Proof.
  unfold image.RGBAAt. rewrite Rect_SetRGBA. unfold image.SetRGBA.
  destruct (image.In x y (image.Rect p)) eqn:Hin; simpl.
  - destruct (decide ((x', y') = (x, y))) as [Heq | Hne].
    + injection Heq as -> ->. rewrite Hin, lookup_insert_eq.
      by rewrite decide_True.
    + rewrite lookup_insert_ne by done. rewrite decide_False; [done | tauto].
  - rewrite decide_False; [done |]. intros [_ ?]. discriminate.
Qed.

Lemma NewRGBA_Some r p :
  image.NewRGBA r = Some p ->
  image.Rect p = r /\ forall x y, image.RGBAAt p x y = image.zeroRGBA.
Proof.
  unfold image.NewRGBA. case_match; [done |]. intros [= <-]. split; [done |].
  intros x y. unfold image.RGBAAt; simpl. by case_match.
Qed.

(** One row of the copy loop, over any list of columns. *)
Lemma copy_columns_spec img y0 (xs : list Z) : forall out,
  let res := foldl (fun out x => copyPixel img out x y0) out xs in
  image.Rect res = image.Rect out /\
  forall x y,
    image.RGBAAt res x y =
    if decide (y = y0 /\ x ∈ xs /\ image.In x y (image.Rect out) = true)
    then pixelRGBA (image.At img x y) else image.RGBAAt out x y.
Proof.
  induction xs as [| x0 xs IH]; intros out; cbv zeta; cbn [foldl].
  - split; [done |]. intros x y. rewrite decide_False; [done |].
    intros (_ & H & _). by apply elem_of_nil in H.
  - destruct (IH (copyPixel img out x0 y0)) as [HR Hat]. unfold copyPixel in *.
    rewrite Rect_SetRGBA in *. split; [done |]. intros x y.
    rewrite Hat, RGBAAt_SetRGBA.
    destruct (decide (y = y0 /\ x ∈ xs /\ image.In x y (image.Rect out) = true))
      as [(Hy & Hx & Hin) | H1].
    + rewrite decide_True; [done |]. repeat split; try done.
      apply elem_of_cons. by right.
    + destruct (decide ((x, y) = (x0, y0) /\
                        image.In x0 y0 (image.Rect out) = true))
        as [[[= -> ->] Hin] | H2].
      * rewrite decide_True; [done |]. repeat split; try done.
        apply elem_of_cons. by left.
      * rewrite decide_False; [done |]. intros (Hy & Hx & Hin).
        apply elem_of_cons in Hx as [-> | Hx]; [apply H2 | apply H1]; subst; auto.
Qed.

Lemma copyRow_spec b img out y0 :
  image.Rect (copyRow b img out y0) = image.Rect out /\
  forall x y,
    image.RGBAAt (copyRow b img out y0) x y =
    if decide (y = y0 /\
               image.X (image.Min b) <= x < image.X (image.Max b) /\
               image.In x y (image.Rect out) = true)
    then pixelRGBA (image.At img x y) else image.RGBAAt out x y.
Proof.
  unfold copyRow.
  destruct (copy_columns_spec img y0
              (seqZ (image.X (image.Min b))
                 (image.X (image.Max b) - image.X (image.Min b))) out)
    as [HR Hat].
  split; [done |]. intros x y. rewrite Hat.
  apply decide_ext. rewrite elem_of_seqZ. intuition lia.
Qed.

Lemma copy_rows_spec b img (ys : list Z) : forall out,
  let res := foldl (fun out y => copyRow b img out y) out ys in
  image.Rect res = image.Rect out /\
  forall x y,
    image.RGBAAt res x y =
    if decide (y ∈ ys /\
               image.X (image.Min b) <= x < image.X (image.Max b) /\
               image.In x y (image.Rect out) = true)
    then pixelRGBA (image.At img x y) else image.RGBAAt out x y.
Proof.
  induction ys as [| y0 ys IH]; intros out; cbv zeta; cbn [foldl].
  - split; [done |]. intros x y. rewrite decide_False; [done |].
    intros (H & _). by apply elem_of_nil in H.
  - destruct (IH (copyRow b img out y0)) as [HR Hat].
    destruct (copyRow_spec b img out y0) as [HR0 Hat0].
    rewrite HR0 in *. split; [done |]. intros x y.
    rewrite Hat, Hat0.
    destruct (decide (y ∈ ys /\
                      image.X (image.Min b) <= x < image.X (image.Max b) /\
                      image.In x y (image.Rect out) = true))
      as [(Hy & Hx & Hin) | H1].
    + rewrite decide_True; [done |]. split; [| done].
      apply elem_of_cons. by right.
    + destruct (decide (y = y0 /\
                        image.X (image.Min b) <= x < image.X (image.Max b) /\
                        image.In x y (image.Rect out) = true))
        as [(-> & Hx & Hin) | H2].
      * rewrite decide_True; [done |]. split; [| done].
        apply elem_of_cons. by left.
      * rewrite decide_False; [done |]. intros (Hy & Hx & Hin).
        apply elem_of_cons in Hy as [-> | Hy]; [apply H2 | apply H1]; auto.
Qed.

(** The two nested loops write exactly the coordinates of the input bounds
    that lie inside the output rectangle, and leave the rest as it was. *)
Lemma copyPixels_spec b img out :
  image.Rect (copyPixels b img out) = image.Rect out /\
  forall x y,
    image.RGBAAt (copyPixels b img out) x y =
    if image.In x y b && image.In x y (image.Rect out)
    then pixelRGBA (image.At img x y) else image.RGBAAt out x y.
Proof.
  unfold copyPixels.
  destruct (copy_rows_spec b img
              (seqZ (image.Y (image.Min b))
                 (image.Y (image.Max b) - image.Y (image.Min b))) out)
    as [HR Hat].
  split; [done |]. intros x y. rewrite Hat.
  destruct (image.In x y b) eqn:Hb; simpl.
  - apply In_spec in Hb. destruct (image.In x y (image.Rect out)) eqn:Ho.
    + rewrite decide_True; [done |]. rewrite elem_of_seqZ. split; [lia | tauto].
    + rewrite decide_False; [done |]. intros (_ & _ & ?). discriminate.
  - rewrite decide_False; [done |]. rewrite elem_of_seqZ. intros (? & ? & _).
    assert (image.In x y b = true) by (apply In_spec; lia). congruence.
Qed.

End PixelBuffer.

(** ** Runs of [process] *)

Section ProcessRuns.

Variables (w : World) (m : beadMachine).

Lemma process_read_failure err :
  readImageFile w (inputFileName m) = inr err ->
  process w m =
  ([EvReadImageFile (inputFileName m);
    EvLog zap.ErrorLevel "Reading image file failed" [zap.Error err]], Return).
Proof. intros H. unfold process. rewrite H. reflexivity. Qed.

Lemma process_alloc_failure img0 :
  readImageFile w (inputFileName m) = inl img0 ->
  image.NewRGBA (beadModeImageBounds m (processedBounds w m img0)) = None ->
  process w m = (firstn 4 (logsBeforePixels w m img0), Panic).
Proof.
  intros Hread Halloc. unfold process. rewrite Hread.
  unfold logsBeforePixels, processedBounds, processedImage in *.
  destruct (prepareImage w m img0) as [img resized]; simpl in *.
  rewrite Halloc. reflexivity.
Qed.

Lemma process_noColorMatching_run img0 out0 :
  readImageFile w (inputFileName m) = inl img0 ->
  image.NewRGBA (beadModeImageBounds m (processedBounds w m img0)) = Some out0 ->
  noColorMatching m = true ->
  process w m =
  let out := copyPixels (processedBounds w m img0) (processedImage w m img0) out0 in
  (logsBeforePixels w m img0 ++ trace (writeOutput w m out),
   outcome (writeOutput w m out)).
Proof.
  intros Hread Halloc Hmode. unfold process. rewrite Hread.
  unfold logsBeforePixels, writeOutput, processedBounds, processedImage in *.
  destruct (prepareImage w m img0) as [img resized]; simpl in *.
  rewrite Halloc, Hmode.
  destruct (resized || beadStyle m), (os_Create w (outputFileName m));
    reflexivity.
Qed.

Lemma process_matching_run img0 out0 :
  readImageFile w (inputFileName m) = inl img0 ->
  image.NewRGBA (beadModeImageBounds m (processedBounds w m img0)) = Some out0 ->
  noColorMatching m = false ->
  process w m =
  match processImage w m (processedBounds w m img0) (processedImage w m img0)
          out0 (paletteFileName m) with
  | (_, Some err) =>
      (logsBeforePixels w m img0 ++
       [EvProcessImage (paletteFileName m);
        EvLog zap.ErrorLevel "Processing image failed" [zap.Error err]], Return)
  | (out, None) =>
      (logsBeforePixels w m img0 ++
       [EvProcessImage (paletteFileName m);
        EvLog zap.InfoLevel "Image processed"
          [zap.Duration "duration" (time_Since w)]] ++
       trace (writeOutput w m out),
       outcome (writeOutput w m out))
  end.
Proof.
  intros Hread Halloc Hmode. unfold process. rewrite Hread.
  unfold logsBeforePixels, writeOutput, processedBounds, processedImage in *.
  destruct (prepareImage w m img0) as [img resized]; simpl in *.
  rewrite Halloc, Hmode.
  destruct resized; simpl;
    destruct (processImage w m _ img out0 (paletteFileName m)) as [out [err |]];
    destruct (beadStyle m); try reflexivity;
    destruct (os_Create w (outputFileName m)); reflexivity.
Qed.

(** The board counts logged by a run that got past reading its input. *)
Lemma process_logs_boards img0 :
  readImageFile w (inputFileName m) = inl img0 ->
  boardsLogged (trace (process w m)) =
    [(calculateBeadBoardsNeeded (image.Dx (processedBounds w m img0)),
      calculateBeadBoardsNeeded (image.Dy (processedBounds w m img0)))].
Proof.
  intros Hread.
  destruct (image.NewRGBA (beadModeImageBounds m (processedBounds w m img0)))
    as [out0 |] eqn:Halloc.
  - destruct (noColorMatching m) eqn:Hmode.
    + rewrite (process_noColorMatching_run img0 out0) by done.
      unfold logsBeforePixels, writeOutput; simpl.
      by destruct (snd (prepareImage w m img0) || beadStyle m),
        (os_Create w (outputFileName m)).
    + rewrite (process_matching_run img0 out0) by done.
      unfold logsBeforePixels, writeOutput.
      by destruct (processImage w m _ _ out0 _) as [out [e |]],
        (snd (prepareImage w m img0) || beadStyle m),
        (os_Create w (outputFileName m)).
  - by rewrite (process_alloc_failure img0).
Qed.

End ProcessRuns.

(** ** Skipping the colour matching *)

Section NoColorMatching.

Variables (w : World) (m : beadMachine).
Hypothesis Hmode : noColorMatching m = true.

Lemma noColorMatching_never_matches :
  Forall (fun e => is_processImage e = false) (trace (process w m)).
Proof.
  destruct (readImageFile w (inputFileName m)) as [img0 | err] eqn:Hread.
  - destruct (image.NewRGBA (beadModeImageBounds m (processedBounds w m img0)))
      as [out0 |] eqn:Halloc.
    + rewrite (process_noColorMatching_run w m img0 out0) by done.
      unfold logsBeforePixels, writeOutput; simpl.
      destruct (snd (prepareImage w m img0) || beadStyle m),
        (os_Create w (outputFileName m)); simpl; repeat constructor.
    + rewrite (process_alloc_failure w m img0) by done.
      simpl. repeat constructor.
  - rewrite (process_read_failure w m err) by done. repeat constructor.
Qed.

Lemma noColorMatching_encodes_copy img0 out0 :
  readImageFile w (inputFileName m) = inl img0 ->
  image.NewRGBA (beadModeImageBounds m (processedBounds w m img0)) = Some out0 ->
  os_Create w (outputFileName m) = None ->
  encoded (trace (process w m)) =
  [copyPixels (processedBounds w m img0) (processedImage w m img0) out0].
Proof.
  intros Hread Halloc Hcreate.
  rewrite (process_noColorMatching_run w m img0 out0) by done.
  unfold logsBeforePixels, writeOutput. rewrite Hcreate. simpl.
  by destruct (snd (prepareImage w m img0) || beadStyle m).
Qed.

End NoColorMatching.

(** The copied colour is opaque, and for a source pixel of type
    [color.RGBA] its three colour channels are the source's. *)
Lemma pixelRGBA_opaque c : color.A (pixelRGBA c) = 255.
Proof.
  unfold pixelRGBA. by destruct (color.Color_RGBA c) as [[[r g] b] a].
Qed.

Lemma uint8_dup8 v : color.is_uint8 v -> GoInt.uint8 (color.dup8 v) = v.
Proof.
  unfold color.is_uint8, color.dup8, GoInt.u32, GoInt.uint8. intros H.
  assert (Hv : v < 2 ^ 8) by lia.
  rewrite Z.shiftl_mul_pow2 by lia.
  rewrite <- (Z.lxor_lor v (v * 2 ^ 8)), <- Z.add_nocarry_lxor.
  - rewrite (Z.mod_small (v + v * 2 ^ 8)) by lia.
    rewrite Z.mod_add by lia. apply Z.mod_small. lia.
  - apply Z.bits_inj'. intros n Hn. rewrite Z.land_spec, Z.bits_0.
    destruct (Z.ltb_spec n 8).
    + rewrite (Z.mul_pow2_bits_low v 8 n) by lia. apply andb_false_r.
    + rewrite (Z.bits_above_log2 v n); [done | lia |].
      destruct (Z.eq_dec v 0) as [-> | Hne]; [simpl; lia |].
      apply Z.lt_le_trans with 8; [| lia]. apply Z.log2_lt_pow2; lia.
  - apply Z.bits_inj'. intros n Hn. rewrite Z.land_spec, Z.bits_0.
    destruct (Z.ltb_spec n 8).
    + rewrite (Z.mul_pow2_bits_low v 8 n) by lia. apply andb_false_r.
    + rewrite (Z.bits_above_log2 v n); [done | lia |].
      destruct (Z.eq_dec v 0) as [-> | Hne]; [simpl; lia |].
      apply Z.lt_le_trans with 8; [| lia]. apply Z.log2_lt_pow2; lia.
Qed.

Lemma pixelRGBA_of_RGBA c :
  color.wf (color.OfRGBA c) ->
  pixelRGBA (color.OfRGBA c) = color.mkRGBA (color.R c) (color.G c) (color.B c) 255.
Proof.
  intros (HR & HG & HB & _). unfold pixelRGBA; simpl.
  by rewrite !uint8_dup8.
Qed.

Lemma pixelRGBA_of_Gray y :
  color.is_uint8 y -> pixelRGBA (color.OfGray y) = color.mkRGBA y y y 255.
Proof. intros H. unfold pixelRGBA; simpl. by rewrite !uint8_dup8. Qed.

(** ** Claims about [process] *)

(** C1: with [noColorMatching] the output channel is the low byte of the
    16-bit alpha-premultiplied channel of the source colour, not the source
    channel: a translucent [color.NRGBA] pixel with red 200 and alpha 100 is
    written with red 188, and an opaque 16-bit pixel with red [0x80ff] is
    written with red 255. *)
Theorem noColorMatching_keeps_low_byte_of_premultiplied_channel :
  (exists out,
     encoded (trace (startBeadMachine
                       (sampleWorld (onePixel (color.OfNRGBA 200 0 0 100)) None)
                       (sampleFlags false true) ["in.png"%string])) = [out] /\
     image.RGBAAt out 0 0 = color.mkRGBA 188 0 0 255) /\
  (exists out,
     encoded (trace (startBeadMachine
                       (sampleWorld (onePixel (color.OfRGBA64 33023 0 0 65535)) None)
                       (sampleFlags false true) ["in.png"%string])) = [out] /\
     image.RGBAAt out 0 0 = color.mkRGBA 255 0 0 255).
Proof. split; eexists; split; vm_compute; reflexivity. Qed.

(** In bead style the output rectangle keeps [Min] and has [Max] multiplied
    by 8, so its width is 8 times the input's plus 7 times [Min.X], and its
    height likewise: 8 times the input's size at the origin only. *)
Lemma beadStyle_size (m : beadMachine) (b : image.Rectangle) :
  beadStyle m = true ->
  GoInt.in_range (8 * image.X (image.Max b)) ->
  GoInt.in_range (8 * image.Y (image.Max b)) ->
  GoInt.in_range (image.X (image.Max b) - image.X (image.Min b)) ->
  GoInt.in_range (image.Y (image.Max b) - image.Y (image.Min b)) ->
  GoInt.in_range (8 * image.X (image.Max b) - image.X (image.Min b)) ->
  GoInt.in_range (8 * image.Y (image.Max b) - image.Y (image.Min b)) ->
  beadModeImageBounds m b =
    image.mkRectangle (image.Min b)
      (image.mkPoint (8 * image.X (image.Max b)) (8 * image.Y (image.Max b))) /\
  image.Dx (beadModeImageBounds m b) = 8 * image.Dx b + 7 * image.X (image.Min b) /\
  image.Dy (beadModeImageBounds m b) = 8 * image.Dy b + 7 * image.Y (image.Min b).
Proof.
  intros Hstyle HX HY HDx HDy HDx8 HDy8.
  assert (Hb : beadModeImageBounds m b =
    image.mkRectangle (image.Min b)
      (image.mkPoint (8 * image.X (image.Max b)) (8 * image.Y (image.Max b)))).
  { unfold beadModeImageBounds. rewrite Hstyle. unfold GoInt.mul.
    rewrite !(Z.mul_comm _ 8), !wrap_id by done. reflexivity. }
  split; [exact Hb |]. rewrite Hb.
  unfold image.Dx, image.Dy, GoInt.sub; cbn [image.Min image.Max image.X image.Y].
  rewrite !wrap_id by done. lia.
Qed.

(** C6: in bead style [process] multiplies only [Max] of the bounds by 8.
    For the 1x1 image at the origin the output image is 8x8, with and
    without colour matching.  For a 1x1 image whose bounds start at (2, 3)
    the output image has the rectangle (2, 3)-(24, 32): it is 22 wide and
    29 high, not 8x8. *)
Theorem beadStyle_multiplies_Max_only :
  (forall nocolormatching : bool, exists out,
     encoded (trace (startBeadMachine
                       (sampleWorld (onePixel (color.OfGray 7)) None)
                       (sampleFlags true nocolormatching) ["in.png"%string]))
       = [out] /\
     image.Dx (image.Rect out) = 8 /\ image.Dy (image.Rect out) = 8) /\
  image.Dx (image.Bounds (offsetPixel (color.OfGray 7))) = 1 /\
  image.Dy (image.Bounds (offsetPixel (color.OfGray 7))) = 1 /\
  (forall nocolormatching : bool, exists out,
     encoded (trace (startBeadMachine
                       (gifWorld (offsetPixel (color.OfGray 7)))
                       (<["input"%string := cobra.VString "in.gif"]>
                          (sampleFlags true nocolormatching))
                       ["in.gif"%string]))
       = [out] /\
     image.Rect out =
       image.mkRectangle (image.mkPoint 2 3) (image.mkPoint 24 32) /\
     image.Dx (image.Rect out) = 22 /\ image.Dy (image.Rect out) = 29).
Proof.
  split; [| split; [| split]].
  - intros []; eexists; (split; [vm_compute; reflexivity |]);
      split; vm_compute; reflexivity.
  - reflexivity.
  - reflexivity.
  - intros []; eexists; (split; [vm_compute; reflexivity |]);
      (split; [| split]); vm_compute; reflexivity.
Qed.

(** C7: when reading the input image fails or the colour matching fails,
    [process] returns early, its last event is the error log entry, and no
    event of the run creates, encodes or closes the output file. *)
Theorem process_failure_writes_no_output (w : World) (m : beadMachine) :
  run_fails w m ->
  outcome (process w m) = Return /\
  Forall (fun e => writes_output e = false) (trace (process w m)) /\
  exists msg err,
    last (trace (process w m)) = Some (EvLog zap.ErrorLevel msg [zap.Error err]).
Proof.
  unfold run_fails. intros Hfail.
  destruct (readImageFile w (inputFileName m)) as [img0 | err] eqn:Hread.
  - destruct Hfail as [Hmode Hfail].
    destruct (image.NewRGBA _) as [out0 |] eqn:Halloc; [| done].
    rewrite (process_matching_run w m img0 out0) by done.
    destruct (processImage w m _ _ out0 _) as [out [e |]]; simpl in Hfail;
      [| by destruct Hfail].
    split; [done |]. split.
    + unfold logsBeforePixels; simpl.
      destruct (snd (prepareImage w m img0) || beadStyle m); simpl;
        repeat constructor.
    + eexists _, e. unfold trace; cbn [fst].
      by rewrite (last_app _ [_; _]).
  - rewrite (process_read_failure w m err) by done.
    split; [done |]. split; [repeat constructor |]. by eexists _, err.
Qed.

Lemma process_failure_writes_no_output_witness :
  run_fails (sampleWorld (onePixel (color.OfGray 7)) (Some "empty palette"%string))
    (newBeadMachine (sampleFlags false false)) /\
  outcome (process
             (sampleWorld (onePixel (color.OfGray 7)) (Some "empty palette"%string))
             (newBeadMachine (sampleFlags false false))) = Return.
Proof.
  assert (H : run_fails
                (sampleWorld (onePixel (color.OfGray 7))
                   (Some "empty palette"%string))
                (newBeadMachine (sampleFlags false false))).
  { vm_compute. split; [reflexivity | eexists; reflexivity]. }
  split; [exact H |].
  apply (process_failure_writes_no_output _ _ H).
Defined.

Lemma process_read_failure_example :
  process (sampleWorld (onePixel (color.OfGray 7)) None)
    (newBeadMachine (<["input"%string := cobra.VString "missing.png"]>
                       (sampleFlags false false))) =
  ([EvReadImageFile "missing.png";
    EvLog zap.ErrorLevel "Reading image file failed"
      [zap.Error "open: no such file or directory"]], Return).
Proof. vm_compute. reflexivity. Qed.



(** C10 as stated fails: two runs on the same image that differ in the
    [boarddimension] flag only, both resizing to 2 by 2 boards, report one
    board in each direction for the default dimension 20 and two for the
    dimension 29. *)
Lemma boarddimension_changes_boards_reported_counterexample :
  boardsLogged
    (trace (startBeadMachine (sampleWorld (onePixel (color.OfGray 7)) None)
              (<["boardswidth"%string := cobra.VInt 2]>
                 (<["boardsheight"%string := cobra.VInt 2]>
                    (sampleFlags false true)))
              ["in.png"%string])) = [(1, 1)] /\
  boardsLogged
    (trace (startBeadMachine (sampleWorld (onePixel (color.OfGray 7)) None)
              (<["boarddimension"%string := cobra.VInt 29]>
                 (<["boardswidth"%string := cobra.VInt 2]>
                    (<["boardsheight"%string := cobra.VInt 2]>
                       (sampleFlags false true))))
              ["in.png"%string])) = [(2, 2)] /\
  ~ (forall (w : World) (fs : cobra.FlagSet) (d : Z) (args : list string),
       boardsLogged
         (trace (startBeadMachine w
                   (<["boarddimension"%string := cobra.VInt d]> fs) args)) =
       boardsLogged (trace (startBeadMachine w fs args))).
Proof.
  assert (H20 : boardsLogged
    (trace (startBeadMachine (sampleWorld (onePixel (color.OfGray 7)) None)
              (<["boardswidth"%string := cobra.VInt 2]>
                 (<["boardsheight"%string := cobra.VInt 2]>
                    (sampleFlags false true)))
              ["in.png"%string])) = [(1, 1)]) by (vm_compute; reflexivity).
  assert (H29 : boardsLogged
    (trace (startBeadMachine (sampleWorld (onePixel (color.OfGray 7)) None)
              (<["boarddimension"%string := cobra.VInt 29]>
                 (<["boardswidth"%string := cobra.VInt 2]>
                    (<["boardsheight"%string := cobra.VInt 2]>
                       (sampleFlags false true))))
              ["in.png"%string])) = [(2, 2)]) by (vm_compute; reflexivity).
  split; [exact H20 |]. split; [exact H29 |].
  intros Hsame.
  specialize (Hsame (sampleWorld (onePixel (color.OfGray 7)) None)
                (<["boardswidth"%string := cobra.VInt 2]>
                   (<["boardsheight"%string := cobra.VInt 2]>
                      (sampleFlags false true)))
                29 ["in.png"%string]).
  rewrite H20, H29 in Hsame. discriminate Hsame.
Qed.

(** C10, amended: the board counts a run reports are
    [calculateBeadBoardsNeeded] of the width and of the height of the
    processed image, so the board dimension does not enter the calculation;
    it reaches the report only through the resizing to a number of boards.
    When neither [boardswidth] nor [boardsheight] is positive (and the
    filters do not read the board dimension), a run with any other value of
    the [boarddimension] flag reports the same counts. *)
Theorem boarddimension_reaches_boards_only_through_resizing
    (w : World) (fs : cobra.FlagSet) (d : Z) (args : list string) :
  cobra.GetInt fs "boardswidth" <= 0 ->
  cobra.GetInt fs "boardsheight" <= 0 ->
  (forall img,
     applyFilters w (newBeadMachine (<["boarddimension"%string := cobra.VInt d]> fs))
       img = applyFilters w (newBeadMachine fs) img) ->
  (forall img0,
     args <> [] ->
     readImageFile w (cobra.GetString fs "input") = inl img0 ->
     boardsLogged (trace (startBeadMachine w fs args)) =
       [(calculateBeadBoardsNeeded
           (image.Dx (processedBounds w (newBeadMachine fs) img0)),
         calculateBeadBoardsNeeded
           (image.Dy (processedBounds w (newBeadMachine fs) img0)))]) /\
  boardsLogged
    (trace (startBeadMachine w
              (<["boarddimension"%string := cobra.VInt d]> fs) args)) =
  boardsLogged (trace (startBeadMachine w fs args)).
Proof.
  intros Hbw Hbh Hfilters. split.
  - intros img0 Hargs Hread. destruct args as [| a args]; [done |].
    by apply process_logs_boards.
  - destruct args as [| a args]; [done |]. cbn [startBeadMachine].
    set (m := newBeadMachine fs) in *.
    set (m' := newBeadMachine (<["boarddimension"%string := cobra.VInt d]> fs)) in *.
    assert (Hin : inputFileName m' = inputFileName m).
    { unfold m', m, newBeadMachine, cobra.GetString; cbn [inputFileName].
      by rewrite lookup_insert_ne. }
    assert (Hw : newWidth m' = newWidth m).
    { unfold newWidth.
      replace (boardsWidth m') with (boardsWidth m)
        by (unfold m', m, newBeadMachine, cobra.GetInt; cbn [boardsWidth];
            by rewrite lookup_insert_ne).
      replace (width m') with (width m)
        by (unfold m', m, newBeadMachine, cobra.GetInt; cbn [width];
            by rewrite lookup_insert_ne).
      replace (0 <? boardsWidth m) with false; [done |].
      symmetry. apply Z.ltb_ge. exact Hbw. }
    assert (Hh : newHeight m' = newHeight m).
    { unfold newHeight.
      replace (boardsHeight m') with (boardsHeight m)
        by (unfold m', m, newBeadMachine, cobra.GetInt; cbn [boardsHeight];
            by rewrite lookup_insert_ne).
      replace (height m') with (height m)
        by (unfold m', m, newBeadMachine, cobra.GetInt; cbn [height];
            by rewrite lookup_insert_ne).
      replace (0 <? boardsHeight m) with false; [done |].
      symmetry. apply Z.ltb_ge. exact Hbh. }
    assert (Hprep : forall img0, prepareImage w m' img0 = prepareImage w m img0).
    { intros img0. unfold prepareImage. by rewrite Hw, Hh, Hfilters. }
    destruct (readImageFile w (inputFileName m)) as [img0 | err] eqn:Hread.
    + rewrite (process_logs_boards w m' img0) by (by rewrite Hin).
      rewrite (process_logs_boards w m img0) by done.
      unfold processedBounds, processedImage. by rewrite Hprep.
    + rewrite (process_read_failure w m' err) by (by rewrite Hin).
      by rewrite (process_read_failure w m err).
Qed.

Lemma boarddimension_reaches_boards_only_through_resizing_witness :
  boardsLogged
    (trace (startBeadMachine (sampleWorld (onePixel (color.OfGray 7)) None)
              (<["boarddimension"%string := cobra.VInt 29]>
                 (<["width"%string := cobra.VInt 58]>
                    (<["height"%string := cobra.VInt 29]>
                       (sampleFlags false true))))
              ["in.png"%string])) = [(2, 1)].
Proof.
  destruct (boarddimension_reaches_boards_only_through_resizing
              (sampleWorld (onePixel (color.OfGray 7)) None)
              (<["width"%string := cobra.VInt 58]>
                 (<["height"%string := cobra.VInt 29]>
                    (sampleFlags false true)))
              29 ["in.png"%string])
    as [Hlog Hsame].
  - vm_compute. discriminate.
  - vm_compute. discriminate.
  - reflexivity.
  - rewrite Hsame.
    rewrite (Hlog (onePixel (color.OfGray 7))); [| discriminate | reflexivity].
    vm_compute. reflexivity.
Defined.

(** ** The caches *)




(** ** More about the usage table and its aggregator *)

Lemma occurrences_zero name names :
  occurrences name names = 0%nat <-> name ∉ names.
Proof.
  unfold occurrences. rewrite length_zero_iff_nil. split.
  - intros Hnil Hin.
    assert (name ∈ filter (λ n, n = name) names) as Hf
      by (by apply list_elem_of_filter).
    rewrite Hnil in Hf. by apply elem_of_nil in Hf.
  - intros Hnot. apply elem_of_nil_inv. intros x Hx.
    apply list_elem_of_filter in Hx as [-> Hx]. done.
Qed.

Lemma totalBeads_insert c name n :
  totalBeads (<[name := n]> c) + default 0 (c !! name) = n + totalBeads c.
Proof.
  assert (Hcomm : forall (j1 j2 : string) (z1 z2 y : Z),
             z1 + (z2 + y) = z2 + (z1 + y)) by (intros; lia).
  unfold totalBeads. destruct (c !! name) as [v |] eqn:Hv; simpl.
  - rewrite <- insert_delete_eq.
    rewrite map_fold_insert_L; [| by intros; apply Hcomm | by rewrite lookup_delete_eq].
    rewrite (map_fold_delete_L _ _ name v c); [lia | by intros; apply Hcomm | done].
  - rewrite map_fold_insert_L; [lia | by intros; apply Hcomm | done].
Qed.

(** X1: the table has one entry per distinct name received: its keys are
    exactly the names that occur, and the colour count it logs is the
    number of distinct names. *)
Theorem calculateBeadUsage_one_entry_per_distinct_name (names : list string) :
  dom (countBeads names) = list_to_set names /\
  size (countBeads names) = length (remove_dups names) /\
  logBeadColors (countBeads names) =
    EvLog zap.InfoLevel "Bead colors"
      [zap.Int "count" (Z.of_nat (length (remove_dups names)))].
Proof.
  assert (Hdom : dom (countBeads names) = list_to_set names).
  { apply set_eq. intros name.
    rewrite elem_of_dom, countBeads_lookup, elem_of_list_to_set.
    case_decide as Hocc.
    - apply occurrences_zero in Hocc. split; [by intros [? ?] | done].
    - rewrite occurrences_zero in Hocc. split; [intros _ | by eauto].
      by destruct (decide (name ∈ names)). }
  assert (Hsize : size (countBeads names) = length (remove_dups names)).
  { rewrite <- size_dom, Hdom.
    rewrite <- (size_list_to_set (C:=gset string) (remove_dups names))
      by apply NoDup_remove_dups.
    f_equal. apply set_eq. intros name.
    by rewrite !elem_of_list_to_set, elem_of_remove_dups. }
  split; [done |]. split; [done |]. unfold logBeadColors. by rewrite Hsize.
Qed.

(** X2: the counts of the table add up to the number of names received,
    as long as that number fits an [int]. *)
Theorem calculateBeadUsage_counts_add_up (names : list string) :
  Z.of_nat (length names) <= GoInt.max_int ->
  totalBeads (countBeads names) = Z.of_nat (length names).
Proof.
  induction names as [| n names IH] using rev_ind; intros Hlen.
  - done.
  - rewrite length_app in Hlen; simpl in Hlen.
    rewrite countBeads_snoc, length_app; simpl. unfold countBead, GoInt.add.
    pose proof (totalBeads_insert (countBeads names) n
                  (GoInt.wrap (default 0 (countBeads names !! n) + 1))) as Hins.
    rewrite IH in Hins by lia.
    assert (Hv : 0 <= default 0 (countBeads names !! n) <= Z.of_nat (length names)).
    { rewrite countBeads_lookup. pose proof (occurrences_le_length n names).
      case_decide; simpl; [lia |].
      rewrite wrap_id; [lia |]. unfold GoInt.in_range, GoInt.min_int. lia. }
    rewrite wrap_id in Hins |- *
      by (unfold GoInt.in_range, GoInt.min_int; lia).
    lia.
Qed.

Lemma calculateBeadUsage_counts_add_up_witness :
  totalBeads (countBeads ["red"; "blue"; "red"; "red"]) = 4.
Proof.
  apply (calculateBeadUsage_counts_add_up ["red"; "blue"; "red"; "red"]).
  vm_compute. discriminate.
Defined.

Lemma aggregator_step_system s s' : aggregator_step s s' -> system_step s s'.
Proof.
  intros (evs & pc' & ch' & Hstep & _ & ->). destruct s as [pc ch names out].
  by apply sys_aggregator.
Qed.

Lemma aggregator_receives_all q : forall c names out,
  rtc aggregator_step
    (mkUsageSystem (Ranging c) (mkChan q true) names out)
    (mkUsageSystem (Ranging (foldl countBead c q)) (mkChan [] true) names out).
Proof.
  induction q as [| n q IH]; intros c names out; simpl.
  - apply rtc_refl.
  - eapply rtc_l; [| apply IH].
    exists [], (Ranging (countBead c n)), (mkChan q true). split; [| split].
    + apply usage_receive.
    + done.
    + simpl. by rewrite app_nil_r.
Qed.

Lemma aggregator_logs_all c rest : forall ch names out,
  rtc aggregator_step
    (mkUsageSystem (Reporting c rest) ch names out)
    (mkUsageSystem (Reporting c []) ch names (out ++ (logBeadsUsed <$> rest))).
Proof.
  induction rest as [| e rest IH]; intros ch names out.
  - simpl. rewrite app_nil_r. apply rtc_refl.
  - assert (E : out ++ (logBeadsUsed <$> e :: rest) =
                (out ++ [logBeadsUsed e]) ++ (logBeadsUsed <$> rest))
      by (by rewrite fmap_cons, <- app_assoc).
    rewrite E. eapply rtc_l; [| apply IH].
    exists [logBeadsUsed e], (Reporting c rest), ch. split; [| done].
    apply usage_log_entry.
Qed.

(** X3: once the channel is closed, [calculateBeadUsage] reaches its send
    on [beadStatsDone] by steps of its own: from every reachable state with
    a closed channel in which it has not finished, it drains the channel
    and logs the complete report of all names ever sent.  All that is left
    then is the send, which waits for a receiver.  It blocks on an open
    empty channel, and after its end it does nothing more. *)
Theorem calculateBeadUsage_reaches_signal_after_close (s : UsageSystem) :
  reachable s ->
  closed (usageChan s) = true ->
  usagePC s <> Finished ->
  (exists s' entries,
     rtc aggregator_step s s' /\
     usagePC s' = Reporting (countBeads (sent s)) [] /\
     usageChan s' = mkChan [] true /\
     sent s' = sent s /\
     entries ≡ₚ map_to_list (countBeads (sent s)) /\
     performed s' =
       logBeadColors (countBeads (sent s)) :: (logBeadsUsed <$> entries) /\
     (forall evs st,
        calculateBeadUsage_step (usagePC s', usageChan s') evs st ->
        evs = [EvBeadStatsDone] /\ st = (Finished, usageChan s'))) /\
  (forall c evs st,
     ~ calculateBeadUsage_step (Ranging c, mkChan [] false) evs st) /\
  (forall ch evs st, ~ calculateBeadUsage_step (Finished, ch) evs st).
Proof.
  intros Hreach Hclosed Hrunning. split; [| split].
  - assert (Hrun : exists s' c,
              rtc aggregator_step s s' /\ usagePC s' = Reporting c [] /\
              sent s' = sent s).
    { destruct s as [[c | c rest |] [q cl] names out]; simpl in *; subst cl.
      - eexists _, (foldl countBead c q). split.
        + etrans; [apply aggregator_receives_all |].
          eapply rtc_l; [| apply aggregator_logs_all].
          exists [logBeadColors (foldl countBead c q)],
            (Reporting (foldl countBead c q) (map_to_list (foldl countBead c q))),
            (mkChan [] true).
          split; [| done]. by apply usage_range_end.
        + done.
      - eexists _, c. split; [apply aggregator_logs_all | done].
      - done. }
    destruct Hrun as (s' & c & Hsteps & Hpc & Hsent).
    assert (Hreach' : reachable s').
    { unfold reachable. etrans; [exact Hreach |].
      eapply rtc_subrel; [| exact Hsteps]. apply aggregator_step_system. }
    apply reachable_usage_inv in Hreach'. unfold usage_inv in Hreach'.
    rewrite Hpc, Hsent in Hreach'.
    destruct Hreach' as (Hch & -> & logged & Hperm & Hout).
    rewrite app_nil_r in Hperm.
    exists s', logged. rewrite Hpc, Hch.
    split; [exact Hsteps |]. split; [done |]. split; [done |].
    split; [exact Hsent |]. split; [exact Hperm |]. split; [exact Hout |].
    intros evs st Hstep. by inversion Hstep.
  - intros c evs st H. inversion H.
  - intros ch evs st H. inversion H.
Qed.

Lemma usage_two_waiting_reachable : reachable usage_two_waiting.
Proof.
  unfold reachable, usage_init, usage_two_waiting.
  eapply rtc_l; [apply (sys_send _ _ "red"), producer_send |].
  eapply rtc_l; [apply (sys_send _ _ "blue"), producer_send |].
  eapply rtc_l; [apply sys_close, producer_close |].
  apply rtc_refl.
Qed.

Lemma calculateBeadUsage_reaches_signal_after_close_witness :
  exists s',
    rtc aggregator_step usage_two_waiting s' /\
    usagePC s' = Reporting (countBeads ["red"; "blue"]%string) [] /\
    length (performed s') = 3%nat.
Proof.
  destruct (calculateBeadUsage_reaches_signal_after_close usage_two_waiting
              usage_two_waiting_reachable eq_refl)
    as [(s' & entries & Hsteps & Hpc & _ & _ & Hperm & Hout & _) _].
  - discriminate.
  - exists s'. split; [exact Hsteps |]. split; [exact Hpc |].
    rewrite Hout. simpl. rewrite length_fmap.
    apply Permutation_length in Hperm. rewrite Hperm. reflexivity.
Defined.

(** ** More about the board count and the measurement *)

(** The board count in exact arithmetic, for dimensions binary64 handles
    without visible rounding. *)
Lemma calculateBeadBoardsNeeded_exact d :
  0 <= d < 2 ^ 51 -> calculateBeadBoardsNeeded d = roundHalfUp29 d.
Proof.
  intros Hd. unfold roundHalfUp29.
  destruct (Z.lt_ge_cases d 64) as [Hsmall | Hbig].
  - apply calculateBeadBoardsNeeded_small. lia.
  - unfold calculateBeadBoardsNeeded.
    destruct (div_by_29_bounds d ltac:(lia)) as (m3 & e3 & -> & Hm3 & He3 & Herr).
    destruct (add_half_floor m3 e3 Hm3 He3) as (mW & eW & -> & HeW & Hfloor).
    assert (HV : 0 < 2 ^ (e3 + 53) <= 2 ^ 48).
    { split; [apply Z.pow_pos_nonneg; lia | apply Z.pow_le_mono_r; lia]. }
    set (sV := Zpos m3 * 2 ^ (e3 + 53)) in *.
    assert (HsV : 0 <= sV < 2 ^ 53 * 2 ^ 48) by (unfold sV; nia).
    clearbody sV.
    rewrite int_of_Floor; [| done |].
    + rewrite Hfloor. Z.div_mod_to_equations. lia.
    + rewrite Hfloor. Z.div_mod_to_equations. lia.
Qed.

(** X4: a wider image never needs fewer boards by this count: on
    dimensions from 0 up to [2^51] the result is monotone. *)
Theorem calculateBeadBoardsNeeded_monotone (d d' : Z) :
  0 <= d -> d <= d' -> d' < 2 ^ 51 ->
  calculateBeadBoardsNeeded d <= calculateBeadBoardsNeeded d'.
Proof.
  intros H0 Hle Hlt.
  rewrite !calculateBeadBoardsNeeded_exact by lia.
  unfold roundHalfUp29. apply Z.div_le_mono; lia.
Qed.

Lemma calculateBeadBoardsNeeded_monotone_witness :
  calculateBeadBoardsNeeded 43 <= calculateBeadBoardsNeeded 44.
Proof. apply calculateBeadBoardsNeeded_monotone; lia. Defined.

(** X5: the boards counted cover the dimension up to 14 beads either way:
    [29 * boards] differs from the dimension by at most 14, it is exact
    on multiples of 29, dimensions up to 14 count as no board at all, and
    the boards counted are too few to hold the image exactly when the
    remainder of the division by 29 is between 1 and 14. *)
Theorem calculateBeadBoardsNeeded_within_half_board (d : Z) :
  0 <= d < 2 ^ 51 ->
  -14 <= d - 29 * calculateBeadBoardsNeeded d <= 14 /\
  (d mod 29 = 0 -> 29 * calculateBeadBoardsNeeded d = d) /\
  (calculateBeadBoardsNeeded d = 0 <-> d <= 14) /\
  (29 * calculateBeadBoardsNeeded d < d <-> 1 <= d mod 29 <= 14).
Proof.
  intros Hd. rewrite calculateBeadBoardsNeeded_exact by done.
  unfold roundHalfUp29. repeat split; intros; Z.div_mod_to_equations; lia.
Qed.

Lemma calculateBeadBoardsNeeded_within_half_board_witness :
  29 * calculateBeadBoardsNeeded 43 < 43 /\ calculateBeadBoardsNeeded 14 = 0.
Proof.
  destruct (calculateBeadBoardsNeeded_within_half_board 43) as (_ & _ & _ & H43);
    [lia |].
  destruct (calculateBeadBoardsNeeded_within_half_board 14) as (_ & _ & H14 & _);
    [lia |].
  split; [apply H43; vm_compute; split; discriminate | apply H14; lia].
Defined.

(** X6: the measurement in cm, [float64(d) * 0.5], is computed without
    rounding for every positive dimension of at most 53 binary digits: the
    result has the mantissa of [float64(d)] and its exponent lowered by
    one. *)
Theorem float64_cm_is_exact_half (d : Z) :
  0 < d < 2 ^ 53 ->
  exists m e,
    math.float64_of_int d = S754_finite false m e /\
    Zpos m * 2 ^ (e + 53) = d * 2 ^ 53 /\
    float64_cm d = S754_finite false m (e - 1).
Proof.
  intros Hd.
  destruct (Zdigits2_bounds d ltac:(lia)) as [Hb Hkpos].
  remember (Zdigits2 d) as k eqn:Hk.
  assert (Hk53 : k <= 53).
  { destruct (Z.le_gt_cases k 53) as [| Hgt]; [done |].
    assert (2 ^ 53 <= 2 ^ (k - 1)) by (apply Z.pow_le_mono_r; lia). lia. }
  destruct (float64_of_int_normal d k) as (m1 & Hf & Hm1); try lia.
  assert (H2 : 0 < 2 ^ (53 - k)) by (apply Z.pow_pos_nonneg; lia).
  assert (Hm1b : 2 ^ 52 <= Zpos m1 < 2 ^ 53).
  { rewrite Hm1.
    replace (2 ^ 52) with (2 ^ (k - 1) * 2 ^ (53 - k))
      by (rewrite <- Z.pow_add_r by lia; f_equal; lia).
    replace (2 ^ 53) with (2 ^ k * 2 ^ (53 - k))
      by (rewrite <- Z.pow_add_r by lia; f_equal; lia).
    nia. }
  exists m1, (k - 53). split; [done |]. split.
  { rewrite Hm1. replace (k - 53 + 53) with k by lia.
    rewrite <- Z.mul_assoc, <- Z.pow_add_r by lia. do 2 f_equal. lia. }
  unfold float64_cm, math.mul, math.half. rewrite Hf. cbn [SFmul xorb].
  change (Zpos (m1 * 4503599627370496)) with (Zpos m1 * 2 ^ 52).
  destruct (binary_round_aux_normal (Zpos m1 * 2 ^ 52) (k - 53 + -53) loc_Exact 52)
    as (m3 & e3 & -> & _ & _ & Hexact); try lia.
  { apply Zdigits2_unique; [| lia].
    change (53 + 52 - 1) with (52 + 52). change (53 + 52) with (53 + 52).
    rewrite !Z.pow_add_r by lia. lia. }
  destruct Hexact as [Hm3 He3]; [done | by apply Z.mod_mul |].
  rewrite Z.div_mul in Hm3 by lia. f_equal; lia.
Qed.

Lemma float64_cm_is_exact_half_witness :
  float64_cm 3 = S754_finite false 6755399441055744 (-52).
Proof.
  destruct (float64_cm_is_exact_half 3) as (m & e & Hf & _ & Hcm); [lia |].
  rewrite Hcm. vm_compute in Hf. injection Hf as <- <-. reflexivity.
Defined.

(** X7: when the image is resized to a number of boards, the boards logged
    are the requested pixel sizes [boards * boardDimension] divided by 29
    and rounded, not the number of boards asked for: they agree for a
    board dimension of 29, and for the dimension 20 every request of two
    or more boards is logged as fewer boards. *)
Theorem boards_logged_for_requested_boards
    (w : World) (m : beadMachine) (img0 : image.Image) :
  readImageFile w (inputFileName m) = inl img0 ->
  0 < boardsWidth m -> 0 < boardsHeight m ->
  0 < boardsWidth m * boardDimension m < 2 ^ 51 ->
  0 < boardsHeight m * boardDimension m < 2 ^ 51 ->
  resize_honours_request w m img0 ->
  boardsLogged (trace (process w m)) =
    [(roundHalfUp29 (boardsWidth m * boardDimension m),
      roundHalfUp29 (boardsHeight m * boardDimension m))] /\
  (boardDimension m = 29 ->
   boardsLogged (trace (process w m)) = [(boardsWidth m, boardsHeight m)]) /\
  (boardDimension m = 20 -> 2 <= boardsWidth m ->
   roundHalfUp29 (boardsWidth m * boardDimension m) < boardsWidth m).
Proof.
  intros Hread Hbw Hbh Hw Hh Hresize.
  assert (HnW : newWidth m = boardsWidth m * boardDimension m).
  { unfold newWidth. replace (0 <? boardsWidth m) with true
      by (symmetry; apply Z.ltb_lt; lia).
    apply wrap_id. unfold GoInt.in_range, GoInt.min_int, GoInt.max_int. lia. }
  assert (HnH : newHeight m = boardsHeight m * boardDimension m).
  { unfold newHeight. replace (0 <? boardsHeight m) with true
      by (symmetry; apply Z.ltb_lt; lia).
    apply wrap_id. unfold GoInt.in_range, GoInt.min_int, GoInt.max_int. lia. }
  assert (Hb : image.Dx (processedBounds w m img0) = boardsWidth m * boardDimension m /\
               image.Dy (processedBounds w m img0) = boardsHeight m * boardDimension m).
  { unfold resize_honours_request in Hresize. cbv zeta in Hresize.
    unfold processedBounds, processedImage, prepareImage.
    replace ((0 <? newWidth m) || (0 <? newHeight m)) with true
      by (symmetry; apply orb_true_iff; left; apply Z.ltb_lt; lia).
    simpl. rewrite <- HnW, <- HnH. exact Hresize. }
  destruct Hb as [HDx HDy].
  assert (Hlog : boardsLogged (trace (process w m)) =
    [(roundHalfUp29 (boardsWidth m * boardDimension m),
      roundHalfUp29 (boardsHeight m * boardDimension m))]).
  { rewrite (process_logs_boards w m img0 Hread), HDx, HDy.
    by rewrite !calculateBeadBoardsNeeded_exact by lia. }
  split; [exact Hlog |]. split.
  - intros Hbd. rewrite Hlog, Hbd. unfold roundHalfUp29.
    do 2 f_equal; Z.div_mod_to_equations; lia.
  - intros Hbd Hge. rewrite Hbd. unfold roundHalfUp29.
    Z.div_mod_to_equations. lia.
Qed.

Lemma boards_logged_for_requested_boards_witness :
  boardsLogged
    (trace (process (sampleWorld (onePixel (color.OfGray 7)) None)
              (newBeadMachine (<["boardswidth"%string := cobra.VInt 3]>
                                 (<["boardsheight"%string := cobra.VInt 2]>
                                    (sampleFlags false true)))))) = [(2, 1)].
Proof.
  destruct (boards_logged_for_requested_boards
              (sampleWorld (onePixel (color.OfGray 7)) None)
              (newBeadMachine (<["boardswidth"%string := cobra.VInt 3]>
                                 (<["boardsheight"%string := cobra.VInt 2]>
                                    (sampleFlags false true))))
              (onePixel (color.OfGray 7)))
    as [Hlog _].
  - reflexivity.
  - reflexivity.
  - reflexivity.
  - vm_compute. split; reflexivity.
  - vm_compute. split; reflexivity.
  - vm_compute. split; reflexivity.
  - rewrite Hlog. reflexivity.
Defined.

(** ** More about runs of [process] *)

Lemma land_shifted_byte v : 0 <= v < 256 -> Z.land v (v * 2 ^ 8) = 0.
Proof.
  intros Hv. apply Z.bits_inj'. intros n Hn. rewrite Z.land_spec, Z.bits_0.
  destruct (Z.ltb_spec n 8).
  - rewrite (Z.mul_pow2_bits_low v 8 n) by lia. apply andb_false_r.
  - rewrite (Z.bits_above_log2 v n); [done | lia |].
    destruct (Z.eq_dec v 0) as [-> | Hne]; [simpl; lia |].
    apply Z.lt_le_trans with 8; [| lia]. apply Z.log2_lt_pow2; lia.
Qed.

Lemma dup8_value v : color.is_uint8 v -> color.dup8 v = v * 257.
Proof.
  unfold color.is_uint8, color.dup8, GoInt.u32. intros Hv.
  rewrite Z.shiftl_mul_pow2 by lia.
  rewrite <- (Z.lxor_lor v (v * 2 ^ 8)) by (by apply land_shifted_byte).
  rewrite <- Z.add_nocarry_lxor by (by apply land_shifted_byte).
  rewrite Z.mod_small by lia. lia.
Qed.

Lemma pixelRGBA_channels8 c r g b :
  color.wf c -> channels8 c = Some (r, g, b) ->
  pixelRGBA c = color.mkRGBA r g b 255.
Proof.
  intros Hwf Hc. destruct c as [c | | r' g' b' a | | | | y |]; try discriminate.
  - injection Hc as <- <- <-. by apply pixelRGBA_of_RGBA.
  - destruct Hwf as (Hr & Hg & Hb & _).
    assert (a = 255) as ->.
    { simpl in Hc. destruct a as [| p |]; try discriminate.
      repeat (destruct p as [p | p |]; try discriminate). done. }
    injection Hc as <- <- <-. unfold pixelRGBA; simpl.
    assert (Hpre : forall v, color.is_uint8 v ->
              GoInt.uint8 (GoInt.u32 (color.dup8 v * 255) / 255) = v).
    { intros v Hv. rewrite dup8_value by done.
      unfold color.is_uint8 in Hv. unfold GoInt.u32, GoInt.uint8.
      rewrite (Z.mod_small (v * 257 * 255)) by lia. rewrite Z.div_mul by lia.
      replace (v * 257) with (v + v * 2 ^ 8) by lia.
      rewrite Z.mod_add by lia. apply Z.mod_small. lia. }
    by rewrite !Hpre.
  - injection Hc as <- <- <-. by apply pixelRGBA_of_Gray.
Qed.

Lemma pixelRGBA_uint8 c : color.wf (color.OfRGBA (pixelRGBA c)).
Proof.
  unfold pixelRGBA. destruct (color.Color_RGBA c) as [[[r g] b] a]. simpl.
  unfold color.is_uint8, GoInt.uint8.
  repeat split; try lia; apply Z.mod_pos_bound; lia.
Qed.

Lemma process_starts_reading w m :
  head (trace (process w m)) = Some (EvReadImageFile (inputFileName m)).
Proof.
  unfold process, trace, bind, emit.
  by destruct (match readImageFile w (inputFileName m) with
               | inl _ => _ | inr _ => _ end).
Qed.

(** X8: when the output file cannot be created, [process] hands no image
    to the encoder and closes nothing; if the run gets as far as creating
    the file, it returns right after logging that error. *)
Theorem process_create_failure (w : World) (m : beadMachine) (err : string) :
  os_Create w (outputFileName m) = Some err ->
  Forall (fun e => is_encode_or_close e = false) (trace (process w m)) /\
  outcome (process w m) <> Value tt /\
  (EvCreate (outputFileName m) ∈ trace (process w m) ->
   outcome (process w m) = Return /\
   last (trace (process w m)) =
     Some (EvLog zap.ErrorLevel "Opening output image file failed" [zap.Error err])).
Proof.
  intros Hcreate.
  destruct (readImageFile w (inputFileName m)) as [img0 | e] eqn:Hread.
  - destruct (image.NewRGBA (beadModeImageBounds m (processedBounds w m img0)))
      as [out0 |] eqn:Halloc.
    + destruct (noColorMatching m) eqn:Hmode.
      * rewrite (process_noColorMatching_run w m img0 out0) by done.
        unfold logsBeforePixels, writeOutput. rewrite Hcreate.
        destruct (snd (prepareImage w m img0) || beadStyle m); simpl;
          (split; [repeat constructor | split; [done | done]]).
      * rewrite (process_matching_run w m img0 out0) by done.
        unfold logsBeforePixels, writeOutput. rewrite Hcreate.
        destruct (processImage w m _ _ out0 _) as [out [e |]],
          (snd (prepareImage w m img0) || beadStyle m); simpl;
          (split; [repeat constructor | split; [done |]]); try done;
          intros Hin; exfalso;
          repeat (apply elem_of_cons in Hin as [Hin | Hin]; [discriminate |]);
          by apply elem_of_nil in Hin.
    + rewrite (process_alloc_failure w m img0) by done. simpl.
      split; [repeat constructor | split; [done |]].
      intros Hin; exfalso.
      repeat (apply elem_of_cons in Hin as [Hin | Hin]; [discriminate |]).
      by apply elem_of_nil in Hin.
  - rewrite (process_read_failure w m e) by done. simpl.
    split; [repeat constructor | split; [done |]].
    intros Hin; exfalso.
    repeat (apply elem_of_cons in Hin as [Hin | Hin]; [discriminate |]).
    by apply elem_of_nil in Hin.
Qed.

Lemma process_create_failure_witness :
  outcome (process (readOnlyWorld (onePixel (color.OfGray 7)))
             (newBeadMachine (sampleFlags false true))) = Return /\
  encoded (trace (process (readOnlyWorld (onePixel (color.OfGray 7)))
                    (newBeadMachine (sampleFlags false true)))) = [].
Proof.
  destruct (process_create_failure (readOnlyWorld (onePixel (color.OfGray 7)))
              (newBeadMachine (sampleFlags false true)) "permission denied")
    as (_ & _ & Hret).
  - reflexivity.
  - split; [| reflexivity]. apply Hret. vm_compute.
    do 4 constructor 2. constructor 1.
Defined.

(** X9: a run of [process] that reaches its end has read the input,
    allocated the output image and rendered it, and only then created the
    output file: the events on the file are the last three of the run, one
    create, one encode of the rendered image and one close, in this
    order. *)
Theorem process_success_writes_once (w : World) (m : beadMachine) :
  outcome (process w m) = Value tt ->
  exists img0 out0 pre,
    readImageFile w (inputFileName m) = inl img0 /\
    image.NewRGBA (beadModeImageBounds m (processedBounds w m img0)) = Some out0 /\
    os_Create w (outputFileName m) = None /\
    trace (process w m) =
      pre ++ [EvCreate (outputFileName m);
              EvEncode (outputFileName m) (renderedImage w m img0 out0);
              EvClose (outputFileName m)] /\
    Forall (fun e => writes_output e = false) pre /\
    (noColorMatching m = false -> EvProcessImage (paletteFileName m) ∈ pre) /\
    (noColorMatching m = true -> Forall (fun e => is_processImage e = false) pre).
Proof.
  intros Hend.
  destruct (readImageFile w (inputFileName m)) as [img0 | e] eqn:Hread;
    [| by rewrite (process_read_failure w m e) in Hend].
  destruct (image.NewRGBA (beadModeImageBounds m (processedBounds w m img0)))
    as [out0 |] eqn:Halloc;
    [| by rewrite (process_alloc_failure w m img0) in Hend].
  exists img0, out0. unfold renderedImage.
  destruct (noColorMatching m) eqn:Hmode.
  - rewrite (process_noColorMatching_run w m img0 out0) in Hend |- * by done.
    unfold writeOutput in *. cbv zeta in *.
    destruct (os_Create w (outputFileName m)) as [err |]; [done |].
    exists (logsBeforePixels w m img0). unfold trace; cbn [fst].
    repeat split; try done.
    + unfold logsBeforePixels.
      destruct (snd (prepareImage w m img0) || beadStyle m); repeat constructor.
    + intros _. unfold logsBeforePixels.
      destruct (snd (prepareImage w m img0) || beadStyle m); repeat constructor.
  - rewrite (process_matching_run w m img0 out0) in Hend |- * by done.
    destruct (processImage w m _ _ out0 _) as [out [e |]]; [done |].
    unfold writeOutput in *.
    destruct (os_Create w (outputFileName m)) as [err |]; [done |].
    exists (logsBeforePixels w m img0 ++
            [EvProcessImage (paletteFileName m);
             EvLog zap.InfoLevel "Image processed"
               [zap.Duration "duration" (time_Since w)]]).
    unfold trace; cbn [fst]. repeat split; try done.
    + by rewrite <- !app_assoc.
    + unfold logsBeforePixels.
      destruct (snd (prepareImage w m img0) || beadStyle m); repeat constructor.
    + intros _. apply elem_of_app. right. apply elem_of_cons. by left.
Qed.

Lemma process_success_writes_once_witness :
  last (trace (process (sampleWorld (onePixel (color.OfGray 7)) None)
                 (newBeadMachine (sampleFlags false false)))) =
  Some (EvClose "out.png").
Proof.
  destruct (process_success_writes_once
              (sampleWorld (onePixel (color.OfGray 7)) None)
              (newBeadMachine (sampleFlags false false)))
    as (img0 & out0 & pre & _ & _ & _ & Htrace & _).
  - reflexivity.
  - rewrite Htrace. apply (last_app_cons pre [_; _]).
Defined.

(** X10: with [noColorMatching] and without bead style, a run that can
    write its output encodes an image with the bounds [process] iterates
    over, holding at every coordinate inside them an opaque colour with
    8-bit channels, and the zero colour elsewhere.  Where the source pixel
    is a [color.RGBA], a [color.Gray] or an opaque [color.NRGBA], the
    colour written has exactly the source's red, green and blue. *)
Theorem noColorMatching_plain_copy
    (w : World) (m : beadMachine) (img0 : image.Image) (out0 : image.RGBA) :
  noColorMatching m = true ->
  beadStyle m = false ->
  readImageFile w (inputFileName m) = inl img0 ->
  image.NewRGBA (processedBounds w m img0) = Some out0 ->
  os_Create w (outputFileName m) = None ->
  exists out,
    encoded (trace (process w m)) = [out] /\
    image.Rect out = processedBounds w m img0 /\
    (forall x y,
       image.RGBAAt out x y =
       if image.In x y (processedBounds w m img0)
       then pixelRGBA (image.At (processedImage w m img0) x y)
       else image.zeroRGBA) /\
    (forall x y,
       image.In x y (processedBounds w m img0) = true ->
       color.A (image.RGBAAt out x y) = 255 /\
       color.wf (color.OfRGBA (image.RGBAAt out x y))) /\
    (forall x y r g b,
       image.In x y (processedBounds w m img0) = true ->
       color.wf (image.At (processedImage w m img0) x y) ->
       channels8 (image.At (processedImage w m img0) x y) = Some (r, g, b) ->
       image.RGBAAt out x y = color.mkRGBA r g b 255).
Proof.
  intros Hmode Hstyle Hread Halloc Hcreate.
  assert (Hbb : beadModeImageBounds m (processedBounds w m img0) =
                processedBounds w m img0)
    by (unfold beadModeImageBounds; by rewrite Hstyle).
  exists (copyPixels (processedBounds w m img0) (processedImage w m img0) out0).
  destruct (copyPixels_spec (processedBounds w m img0) (processedImage w m img0)
              out0) as [HR Hat].
  destruct (NewRGBA_Some _ _ Halloc) as [HR0 Hzero].
  assert (Hpix : forall x y,
    image.RGBAAt (copyPixels (processedBounds w m img0) (processedImage w m img0) out0)
      x y =
    if image.In x y (processedBounds w m img0)
    then pixelRGBA (image.At (processedImage w m img0) x y)
    else image.zeroRGBA).
  { intros x y. rewrite Hat, HR0.
    destruct (image.In x y (processedBounds w m img0)); simpl; [done | apply Hzero]. }
  split; [apply noColorMatching_encodes_copy; by rewrite ?Hbb |].
  split; [by rewrite HR |]. split; [exact Hpix |]. split.
  - intros x y Hin. rewrite Hpix, Hin.
    split; [apply pixelRGBA_opaque | apply pixelRGBA_uint8].
  - intros x y r g b Hin Hwf Hc. rewrite Hpix, Hin. by apply pixelRGBA_channels8.
Qed.

Lemma noColorMatching_plain_copy_witness :
  exists out,
    encoded (trace (process
                      (sampleWorld (onePixel (color.OfNRGBA 10 20 30 255)) None)
                      (newBeadMachine (sampleFlags false true)))) = [out] /\
    image.RGBAAt out 0 0 = color.mkRGBA 10 20 30 255 /\
    image.RGBAAt out 1 1 = image.zeroRGBA.
Proof.
  destruct (noColorMatching_plain_copy
              (sampleWorld (onePixel (color.OfNRGBA 10 20 30 255)) None)
              (newBeadMachine (sampleFlags false true))
              (onePixel (color.OfNRGBA 10 20 30 255))
              (image.mkRGBA ∅ unitSquare))
    as (out & Henc & _ & Hpix & _ & Hsame).
  - reflexivity.
  - reflexivity.
  - reflexivity.
  - reflexivity.
  - reflexivity.
  - exists out. split; [exact Henc |]. split.
    + apply (Hsame 0 0 10 20 30); [reflexivity | | reflexivity].
      vm_compute. repeat split; discriminate.
    + rewrite Hpix. reflexivity.
Defined.

(** X11: when the rectangle of the output image has a negative width or
    height, the allocation panics: [process] ends in a panic after the
    board entries are logged, without running the colour matching and
    without touching the output file.  In bead style only [Max] is
    multiplied, so the width is negative exactly when [8 * Max.X] lies
    below [Min.X], and the height likewise: this happens for some images
    at negative coordinates, such as the 2x2 image at (-4, -4), and not for
    others. *)
Theorem process_panics_on_negative_output_size
    (w : World) (m : beadMachine) (img0 : image.Image) :
  readImageFile w (inputFileName m) = inl img0 ->
  (image.Dx (beadModeImageBounds m (processedBounds w m img0)) < 0 \/
   image.Dy (beadModeImageBounds m (processedBounds w m img0)) < 0 ->
   outcome (process w m) = Panic /\
   Forall (fun e => writes_output e = false) (trace (process w m)) /\
   Forall (fun e => is_processImage e = false) (trace (process w m)) /\
   length (boardsLogged (trace (process w m))) = 1%nat) /\
  (beadStyle m = true ->
   GoInt.in_range (8 * image.X (image.Max (processedBounds w m img0))) ->
   GoInt.in_range (8 * image.Y (image.Max (processedBounds w m img0))) ->
   GoInt.in_range (8 * image.X (image.Max (processedBounds w m img0))
                   - image.X (image.Min (processedBounds w m img0))) ->
   GoInt.in_range (8 * image.Y (image.Max (processedBounds w m img0))
                   - image.Y (image.Min (processedBounds w m img0))) ->
   (image.Dx (beadModeImageBounds m (processedBounds w m img0)) < 0 <->
    8 * image.X (image.Max (processedBounds w m img0))
      < image.X (image.Min (processedBounds w m img0))) /\
   (image.Dy (beadModeImageBounds m (processedBounds w m img0)) < 0 <->
    8 * image.Y (image.Max (processedBounds w m img0))
      < image.Y (image.Min (processedBounds w m img0)))).
Proof.
  intros Hread. split.
  - intros Hneg.
    assert (Halloc :
      image.NewRGBA (beadModeImageBounds m (processedBounds w m img0)) = None).
    { unfold image.NewRGBA, image.mul3NonNeg.
      destruct Hneg as [Hneg | Hneg].
      - replace (image.Dx _ <? 0) with true by (symmetry; apply Z.ltb_lt; lia).
        by rewrite orb_true_r.
      - replace (image.Dy _ <? 0) with true by (symmetry; apply Z.ltb_lt; lia).
        by rewrite orb_true_r. }
    rewrite (process_alloc_failure w m img0) by done. simpl.
    split; [done |]. split; [repeat constructor |].
    split; [repeat constructor | done].
  - intros Hstyle HX HY HDx HDy.
    unfold beadModeImageBounds. rewrite Hstyle.
    unfold image.Dx, image.Dy, GoInt.sub, GoInt.mul; cbn [image.Min image.Max image.X image.Y].
    rewrite !(Z.mul_comm _ 8), !(wrap_id (8 * _)) by done.
    rewrite !wrap_id by done. lia.
Qed.

Lemma process_panics_on_negative_output_size_witness :
  outcome (process (sampleWorld negativeSquare None)
             (newBeadMachine (sampleFlags true true))) = Panic /\
  8 * -2 < -4.
Proof.
  destruct (process_panics_on_negative_output_size
              (sampleWorld negativeSquare None)
              (newBeadMachine (sampleFlags true true)) negativeSquare)
    as [Hpanic Hstyle].
  - reflexivity.
  - destruct Hstyle as [Hwidth _].
    + reflexivity.
    + vm_compute. split; discriminate.
    + vm_compute. split; discriminate.
    + vm_compute. split; discriminate.
    + vm_compute. split; discriminate.
    + pose proof (proj1 Hwidth eq_refl) as Hlt.
      split; [| exact Hlt]. apply Hpanic. left. reflexivity.
Defined.

(** X12: the positional arguments only decide whether anything is run: with
    none, [startBeadMachine] shows the help and reads no file; with any,
    the run is the same whatever they are, and it starts by reading the
    file named by the [input] flag, the empty name if that flag is
    missing. *)
Theorem startBeadMachine_ignores_argument_values
    (w : World) (fs : cobra.FlagSet) (args args' : list string) :
  args <> [] -> args' <> [] ->
  startBeadMachine w fs args = startBeadMachine w fs args' /\
  head (trace (startBeadMachine w fs args)) =
    Some (EvReadImageFile (cobra.GetString fs "input")) /\
  (fs !! "input"%string = None ->
   head (trace (startBeadMachine w fs args)) = Some (EvReadImageFile "")) /\
  startBeadMachine w fs [] = ([EvHelp], Return).
Proof.
  intros Ha Ha'. destruct args as [| a args], args' as [| a' args']; try done.
  split; [done |]. split; [apply process_starts_reading |]. split; [| done].
  intros Hmissing. unfold startBeadMachine. rewrite process_starts_reading.
  simpl. unfold cobra.GetString. by rewrite Hmissing.
Qed.

Lemma startBeadMachine_ignores_argument_values_witness :
  startBeadMachine (sampleWorld (onePixel (color.OfGray 7)) None)
    (sampleFlags false true) ["a.jpg"%string] =
  startBeadMachine (sampleWorld (onePixel (color.OfGray 7)) None)
    (sampleFlags false true) ["b.jpg"%string; "c.jpg"%string].
Proof.
  apply (startBeadMachine_ignores_argument_values
           (sampleWorld (onePixel (color.OfGray 7)) None)
           (sampleFlags false true)); discriminate.
Defined.

(** Every shape a run of [process] can take, as a case analysis. *)
Ltac process_paths w m :=
  let img0 := fresh "img0" in
  let Hread := fresh "Hread" in
  let out0 := fresh "out0" in
  let Halloc := fresh "Halloc" in
  let Hmode := fresh "Hmode" in
  destruct (readImageFile w (inputFileName m)) as [img0 | ?] eqn:Hread;
  [ destruct (image.NewRGBA (beadModeImageBounds m (processedBounds w m img0)))
      as [out0 |] eqn:Halloc;
    [ destruct (noColorMatching m) eqn:Hmode;
      [ rewrite (process_noColorMatching_run w m img0 out0) by done;
        unfold logsBeforePixels, writeOutput; cbv zeta;
        destruct (snd (prepareImage w m img0) || beadStyle m),
          (os_Create w (outputFileName m))
      | rewrite (process_matching_run w m img0 out0) by done;
        unfold logsBeforePixels, writeOutput;
        destruct (processImage w m _ _ out0 _) as [? [? |]],
          (snd (prepareImage w m img0) || beadStyle m),
          (os_Create w (outputFileName m)) ]
    | rewrite (process_alloc_failure w m img0) by done;
      unfold logsBeforePixels ]
  | rewrite (process_read_failure w m _ Hread) ];
  cbn [trace outcome fst snd app firstn].

(** X14: a run of [process] touches no file but its machine's: it reads
    only the input file, hands only the palette file to the matching, and
    creates, encodes to and closes only the output file; it runs the
    matching at most once and creates the output file at most once. *)
Theorem process_touches_only_its_files (w : World) (m : beadMachine) :
  Forall (names_files_of m) (trace (process w m)) /\
  (length (filter (fun e => is_processImage e = true) (trace (process w m))) <= 1)%nat /\
  (length (filter (fun e => is_create e = true) (trace (process w m))) <= 1)%nat.
Proof.
  process_paths w m;
    (split; [repeat constructor | split; vm_compute; lia]).
Qed.

(** X15: [process] returns early exactly when the last thing it did was to
    log an error, and it logs an error nowhere else: after an error entry
    nothing more happens. *)
Theorem process_returns_early_iff_error_logged (w : World) (m : beadMachine) :
  (outcome (process w m) = Return <->
   exists e, last (trace (process w m)) = Some e /\ is_error_entry e = true) /\
  Forall (fun e => is_error_entry e = false) (removelast (trace (process w m))).
Proof.
  process_paths w m;
    (split;
     [ split;
       [ intros Hret; first [discriminate Hret | eexists; split; reflexivity]
       | intros (e & Hlast & He); first [reflexivity |
           exfalso; cbn in Hlast; injection Hlast as <-; discriminate He] ]
     | cbn [removelast]; repeat constructor ]).
Qed.

(** ** The flags of [main] and the machine built from them *)

Ltac flag_value_cases :=
  repeat match goal with
    | H : exists v, _ /\ _ |- _ =>
        let v := fresh "v" in let Hty := fresh "Hty" in
        destruct H as (v & ? & Hty); destruct v; try discriminate Hty; clear Hty
    end.

Ltac rewrite_flags :=
  repeat match goal with
    | H : ?fs !! ?k = Some _ |- context [?fs !! ?k] => rewrite H
    end.

(** X13: the registrations of [main] succeed, no name and no shorthand
    being used twice, and they leave the name [help] and the shorthand [h]
    to the flag the library adds.  [startBeadMachine] reads every
    registered flag under its registered name and type and reads no other
    flag: for a flag set as parsing leaves it, the machine holds the value
    of each registered flag unchanged, and a flag with another name, such
    as [help], does not change the machine. *)
Theorem main_flags_reach_the_machine (fs : cobra.FlagSet) :
  holdsRegistered main_flags fs ->
  is_Some (registerFlags main_flags) /\
  is_Some (addFlag (registerFlags main_flags) helpFlag) /\
  (forall f, f ∈ main_flags ->
     machineFlags (newBeadMachine fs) !! flagName f = fs !! flagName f) /\
  dom (machineFlags (newBeadMachine fs)) = list_to_set (flagName <$> main_flags) /\
  (forall name v, name ∉ flagName <$> main_flags ->
     newBeadMachine (<[name := v]> fs) = newBeadMachine fs).
Proof.
  intros Hreg.
  split; [vm_compute; eauto |]. split; [vm_compute; eauto |].
  split; [| split].
  - assert (HF : Forall (fun f => exists v, fs !! flagName f = Some v /\
                                   sameType (flagDefault f) v = true) main_flags)
      by (by apply Forall_forall).
    unfold main_flags in HF.
    repeat (apply Forall_cons in HF as [? HF]). clear HF Hreg.
    cbn [flagName flagDefault] in *. flag_value_cases.
    intros flag Hin. unfold main_flags in Hin.
    unfold machineFlags, newBeadMachine, logger_of,
      cobra.GetString, cobra.GetInt, cobra.GetBool, cobra.GetFloat64.
    cbn [logger zap.level inputFileName outputFileName htmlFileName paletteFileName
         width height boardsWidth boardsHeight boardDimension beadStyle
         translucent flourescent noColorMatching greyScale blur sharpen gamma
         contrast brightness].
    rewrite_flags.
    repeat (apply elem_of_cons in Hin as [-> | Hin];
            [cbn [flagName]; rewrite_flags;
             match goal with |- _ = Some (cobra.VBool ?b) => try destruct b | _ => idtac end;
             reflexivity |]).
    by apply elem_of_nil in Hin.
  - unfold machineFlags. rewrite dom_list_to_map_L. reflexivity.
  - intros name v Hout. unfold main_flags in Hout.
    cbn [fmap list_fmap flagName] in Hout.
    repeat (apply not_elem_of_cons in Hout as [? Hout]). clear Hout.
    unfold newBeadMachine, logger_of,
      cobra.GetString, cobra.GetInt, cobra.GetBool, cobra.GetFloat64.
    by rewrite !lookup_insert_ne by done.
Qed.

Lemma defaultFlags_holdsRegistered : holdsRegistered main_flags defaultFlags.
Proof.
  intros f Hf. unfold main_flags in Hf.
  repeat (apply elem_of_cons in Hf as [-> | Hf]; [eexists; split; reflexivity |]).
  by apply elem_of_nil in Hf.
Qed.

Lemma main_flags_reach_the_machine_witness :
  defaultFlags !! "help"%string = Some (cobra.VBool false) /\
  machineFlags (newBeadMachine defaultFlags) !! "boarddimension"%string =
    Some (cobra.VInt 20) /\
  machineFlags (newBeadMachine defaultFlags) !! "help"%string = None.
Proof.
  destruct (main_flags_reach_the_machine defaultFlags defaultFlags_holdsRegistered)
    as (_ & _ & Hget & Hdom & _).
  split; [reflexivity |]. split.
  - etrans; [apply (Hget (mkFlagDef "boarddimension" "d" (cobra.VInt 20))) |].
    + do 9 constructor 2. constructor 1.
    + reflexivity.
  - apply not_elem_of_dom. rewrite Hdom. vm_compute. discriminate.
Defined.
